(** * auth.c: a shallow embedding of the authentication system

    The C program keeps a global array [users] of [MAX_USERS] records and a
    counter [user_count]; its operations are [login], [register_user],
    [allocate_session], [process_token] and [check_and_read_config].  All of
    them return [void] or an [int] and report through [printf].

    The embedding follows ISO C: every array is an object of fixed size, a
    write past its end, a read through a released or null pointer, and a
    [printf] conversion without an argument have no defined behaviour.  Such
    a step ends the run with [Undefined], carrying the kind of violation.

    [check_user_files] and [main] are not part of the development: [main]
    reads one choice and calls one of the operations once. *)

From Stdlib Require Import ZArith Ascii String List Lia DecimalString.
From stdpp Require Import base list gmap strings.

Open Scope Z_scope.

(** ** C strings *)

Definition NUL : ascii := Ascii.zero.
Definition LF : ascii := "010"%char.

(** A string literal of the source, without its terminator. *)
Definition lit (s : string) : list ascii := list_ascii_of_string s.

(** A literal that ends in a newline escape. *)
Definition line (s : string) : list ascii := lit s ++ [LF].

(** The string held at the start of a run of bytes: everything before the
    first NUL.  A [char *] argument is given by the bytes it points to; the
    caller's terminator is implicit at the end of the list. *)
Fixpoint c_str (m : list ascii) : list ascii :=
  match m with
  | [] => []
  | c :: m' => if Ascii.eqb c NUL then [] else c :: c_str m'
  end.

Definition strlen (m : list ascii) : nat := length (c_str m).

(** Whether an array holds a terminator at all. *)
Definition terminated (a : list ascii) : bool := existsb (Ascii.eqb NUL) a.

(** ** Outcomes *)

Inductive ub : Type :=
  | BufferOverflow (capacity written : nat)
  | UnterminatedRead
  | IndexOutOfBounds (i : Z)
  | BadFormat
  | NullDereference
  | UseAfterFree (b : nat)
  | DoubleFree (b : nat).

Inductive result (A : Type) : Type :=
  | Ok (a : A)
  | Fault (e : ub).
Arguments Ok {A} a.
Arguments Fault {A} e.

Inductive outcome (S A : Type) : Type :=
  | Ret (a : A) (s : S)
  | Undefined (e : ub).
Arguments Ret {S A} a s.
Arguments Undefined {S A} e.

(** State passing with undefined behaviour as the error. *)
Definition M (S A : Type) : Type := S -> outcome S A.

Definition ret {S A} (a : A) : M S A := fun s => Ret a s.

Definition bind {S A B} (c : M S A) (k : A -> M S B) : M S B :=
  fun s => match c s with
           | Ret a s' => k a s'
           | Undefined e => Undefined e
           end.

Definition gets {S A} (f : S -> A) : M S A := fun s => Ret (f s) s.
Definition modify {S} (f : S -> S) : M S unit := fun s => Ret tt (f s).
Definition undefined {S A} (e : ub) : M S A := fun _ => Undefined e.

Definition lift {S A} (r : result A) : M S A :=
  match r with
  | Ok a => ret a
  | Fault e => undefined e
  end.

Declare Scope run_scope.
Delimit Scope run_scope with run.
Notation "x <- c ; k" := (bind c (fun x => k))
  (at level 20, c at level 100, k at level 200, only parsing) : run_scope.
Notation "' p <- c ; k" := (bind c (fun p => k))
  (at level 20, p pattern, c at level 100, k at level 200, only parsing)
  : run_scope.
Notation "c ;; k" := (bind c (fun _ => k))
  (at level 100, k at level 200, right associativity, only parsing)
  : run_scope.
Open Scope run_scope.

(** ** <string.h> on arrays of known size *)

(** Reading an array as a string needs a terminator inside the array. *)
Definition read_string (a : list ascii) : result (list ascii) :=
  if terminated a then Ok (c_str a) else Fault UnterminatedRead.

(** [strcpy(dst, src)]: [strlen(src) + 1] bytes are written from the start of
    [dst]; the bytes of [dst] behind them keep their value. *)
Definition strcpy (dst src : list ascii) : result (list ascii) :=
  let s := c_str src in
  let n := S (length s) in
  if (n <=? length dst)%nat
  then Ok (s ++ NUL :: drop n dst)
  else Fault (BufferOverflow (length dst) n).

(** [strcat(dst, src)]: the copy starts at the terminator of [dst]. *)
Definition strcat (dst src : list ascii) : result (list ascii) :=
  match read_string dst with
  | Fault e => Fault e
  | Ok d =>
      let s := c_str src in
      let n := S (length d + length s) in
      if (n <=? length dst)%nat
      then Ok (d ++ s ++ NUL :: drop n dst)
      else Fault (BufferOverflow (length dst) n)
  end.

(** [strcmp(a, b) == 0] for two [char *] arguments. *)
Definition strcmp_eq (a b : list ascii) : bool :=
  bool_decide (c_str a = c_str b).

(** ** <stdio.h>: formatted output *)

Inductive arg : Type :=
  | ArgStr (s : list ascii)
  | ArgInt (n : Z).

Definition decimal (n : Z) : list ascii :=
  lit (NilZero.string_of_int (Z.to_int n)).

(** The text a format produces.  The program's own formats use [%s] and
    [%d]; [%%] prints a percent sign.  Every other conversion, and [%s] or
    [%d] without an argument of its type, is undefined. *)
Fixpoint format (fmt : list ascii) (args : list arg) : result (list ascii) :=
  match fmt with
  | [] => Ok []
  | c :: rest =>
      if Ascii.eqb c NUL then Ok []
      else if Ascii.eqb c "%"
      then match rest with
           | d :: rest' =>
               if Ascii.eqb d "%" then
                 match format rest' args with
                 | Ok t => Ok ("%"%char :: t)
                 | Fault e => Fault e
                 end
               else if Ascii.eqb d "s" then
                 match args with
                 | ArgStr s :: args' =>
                     match format rest' args' with
                     | Ok t => Ok (c_str s ++ t)
                     | Fault e => Fault e
                     end
                 | _ => Fault BadFormat
                 end
               else if Ascii.eqb d "d" then
                 match args with
                 | ArgInt n :: args' =>
                     match format rest' args' with
                     | Ok t => Ok (decimal n ++ t)
                     | Fault e => Fault e
                     end
                 | _ => Fault BadFormat
                 end
               else Fault BadFormat
           | [] => Fault BadFormat
           end
      else match format rest args with
           | Ok t => Ok (c :: t)
           | Fault e => Fault e
           end
  end.

(** [sprintf(dst, fmt, ...)]: the text and its terminator go to [dst]. *)
Definition sprintf (dst fmt : list ascii) (args : list arg)
  : result (list ascii) :=
  match format fmt args with
  | Fault e => Fault e
  | Ok t =>
      let n := S (length t) in
      if (n <=? length dst)%nat
      then Ok (t ++ NUL :: drop n dst)
      else Fault (BufferOverflow (length dst) n)
  end.

(** An automatic array before its first write.  Its bytes are indeterminate;
    the program writes each such array from its start before reading it. *)
Definition automatic (n : nat) : list ascii := repeat "?"%char n.
Arguments automatic : simpl never.

(** ** The credential store *)

Definition MAX_USERS : Z := 100.
Definition ADMIN_PASSWORD : list ascii := lit "admin123".

Record User : Type := mkUser {
  username : list ascii;   (* char username[32] *)
  password : list ascii;   (* char password[32] *)
  is_admin : Z             (* int is_admin *)
}.

Record store : Type := mkStore {
  users : list User;       (* User users[MAX_USERS] *)
  user_count : Z;          (* int user_count *)
  stdout : list ascii      (* what printf has written so far *)
}.

(** Objects of static storage start out as zeros. *)
Definition zero_user : User :=
  mkUser (repeat NUL 32) (repeat NUL 32) 0.

Definition initial_store : store :=
  mkStore (repeat zero_user (Z.to_nat MAX_USERS)) 0 [].

Definition emit (t : list ascii) (st : store) : store :=
  mkStore (users st) (user_count st) (stdout st ++ t).

Definition printf (fmt : list ascii) (args : list arg) : M store unit :=
  t <- lift (format fmt args) ;
  modify (emit t).

(** [users[i]], defined for [0 <= i < MAX_USERS]. *)
Definition users_at (i : Z) : M store User :=
  fun st =>
    if (0 <=? i) && (i <? MAX_USERS)
    then match users st !! Z.to_nat i with
         | Some u => Ret u st
         | None => Undefined (IndexOutOfBounds i)
         end
    else Undefined (IndexOutOfBounds i).

Definition users_set (i : Z) (u : User) : M store unit :=
  modify (fun st =>
    mkStore (<[Z.to_nat i := u]> (users st)) (user_count st) (stdout st)).

(** ** login *)

(** [login] returns [void] at three places; the value of the model names the
    place: after "Admin login successful!", after "Login successful for
    user" (with the index [i] of the loop), and after "Login failed!". *)
Inductive login_exit : Type :=
  | AdminGranted
  | UserGranted (i : Z)
  | Denied.

(** The [for] loop of [login] from index [i], with [n] iterations left, and
    the code behind the loop. *)
Fixpoint login_scan (n : nat) (i : Z) (name pass : list ascii)
  : M store login_exit :=
  match n with
  | O =>
      printf (line "Login failed!") [] ;;
      ret Denied
  | S n' =>
      u <- users_at i ;
      stored_name <- lift (read_string (username u)) ;
      if bool_decide (stored_name = c_str name) then
        stored_pass <- lift (read_string (password u)) ;
        if bool_decide (stored_pass = c_str pass) then
          printf (line "Login successful for user: %s") [ArgStr name] ;;
          ret (UserGranted i)
        else login_scan n' (i + 1) name pass
      else login_scan n' (i + 1) name pass
  end.

Definition login (name pass : list ascii) : M store login_exit :=
  buffer <- lift (strcpy (automatic 64) name) ;
  buffer <- lift (strcat buffer (lit ":")) ;
  buffer <- lift (strcat buffer pass) ;
  printf (lit "Attempting login: ") [] ;;
  printf name [] ;;
  printf [LF] [] ;;
  query <- lift (sprintf (automatic 256)
    (lit "SELECT * FROM users WHERE username='%s' AND password='%s'")
    [ArgStr name; ArgStr pass]) ;
  if strcmp_eq name (lit "admin") && strcmp_eq pass ADMIN_PASSWORD then
    printf (line "Admin login successful!") [] ;;
    ret AdminGranted
  else
    n <- gets user_count ;
    login_scan (Z.to_nat n) 0 name pass.

(** ** register_user *)

(** [register_user] returns [void] at two places: after "Max users reached",
    and at its end, after "User registered" (with the index it wrote). *)
Inductive register_exit : Type :=
  | MaxUsersReached
  | Registered (index : Z).

Definition register_user (name pass : list ascii) : M store register_exit :=
  n <- gets user_count ;
  if MAX_USERS <=? n then
    printf (line "Max users reached") [] ;;
    ret MaxUsersReached
  else
    u <- users_at n ;
    field <- lift (strcpy (username u) name) ;
    users_set n (mkUser field (password u) (is_admin u)) ;;
    u <- users_at n ;
    field <- lift (strcpy (password u) pass) ;
    users_set n (mkUser (username u) field (is_admin u)) ;;
    u <- users_at n ;
    users_set n (mkUser (username u) (password u) 0) ;;
    modify (fun st => mkStore (users st) (user_count st + 1) (stdout st)) ;;
    printf (line "User registered: %s") [ArgStr name] ;;
    ret (Registered n).

(** A caller that registers one pair after the other. *)
Fixpoint register_all (inputs : list (list ascii * list ascii))
  : M store (list register_exit) :=
  match inputs with
  | [] => ret []
  | (name, pass) :: rest =>
      r <- register_user name pass ;
      rs <- register_all rest ;
      ret (r :: rs)
  end.

(** Modelled from the spec: findByUsername, which the source does not have
    as a function of its own (only [login] compares stored names).  It is the
    first of the [user_count] records, in the order of the array, whose
    username string equals [name]. *)
Definition findByUsername (name : list ascii) (st : store) : option User :=
  head (filter (fun u => c_str (username u) = c_str name)
               (take (Z.to_nat (user_count st)) (users st))).

(** ** The heap *)

(** A block of allocated storage and whether it has been released. *)
Record block : Type := mkBlock {
  bytes : list ascii;
  live : bool
}.

Record heap : Type := mkHeap {
  blocks : list block;     (* every block handed out so far *)
  available : Z;           (* bytes the allocator can still hand out *)
  zero_size_null : bool;   (* whether malloc(0) gives a null pointer *)
  fresh : ascii;           (* what fresh storage happens to hold *)
  console : list ascii     (* what printf has written so far *)
}.

(** A pointer to the start of a block, or the null pointer. *)
Definition pointer : Type := option nat.

Definition SIZE_BITS : Z := 64.

(** Conversion of an [int] to [size_t]. *)
Definition size_t_of_int (n : Z) : Z := n mod 2 ^ SIZE_BITS.

Definition sizeof_char : Z := 1.

Definition malloc (n : Z) : M heap pointer :=
  fun h =>
    if (n =? 0) && zero_size_null h then Ret None h
    else if n <=? available h then
      Ret (Some (length (blocks h)))
          (mkHeap (blocks h ++ [mkBlock (repeat (fresh h) (Z.to_nat n)) true])
                  (available h - n) (zero_size_null h) (fresh h)
                  (console h))
    else Ret None h.

(** The live block behind a pointer. *)
Definition deref (p : pointer) : M heap (nat * list ascii) :=
  fun h =>
    match p with
    | None => Undefined NullDereference
    | Some b =>
        match blocks h !! b with
        | Some (mkBlock bs true) => Ret (b, bs) h
        | _ => Undefined (UseAfterFree b)
        end
    end.

Definition store_block (b : nat) (bs : list ascii) : M heap unit :=
  modify (fun h =>
    mkHeap (<[b := mkBlock bs true]> (blocks h)) (available h)
           (zero_size_null h) (fresh h) (console h)).

(** [free(p)]: nothing for a null pointer; a block is released once. *)
Definition free (p : pointer) : M heap unit :=
  fun h =>
    match p with
    | None => Ret tt h
    | Some b =>
        match blocks h !! b with
        | Some (mkBlock bs true) =>
            Ret tt (mkHeap (<[b := mkBlock bs false]> (blocks h))
                           (available h + Z.of_nat (length bs))
                           (zero_size_null h) (fresh h) (console h))
        | _ => Undefined (DoubleFree b)
        end
    end.

(** [memset(p, c, n)] *)
Definition memset (p : pointer) (c : ascii) (n : Z) : M heap unit :=
  '(b, bs) <- deref p ;
  if n <=? Z.of_nat (length bs)
  then store_block b (repeat c (Z.to_nat n) ++ drop (Z.to_nat n) bs)
  else undefined (BufferOverflow (length bs) (Z.to_nat n)).

(** [strdup(s)]: a block of [strlen(s) + 1] bytes holding a copy of [s], or
    the null pointer when there is no storage. *)
Definition strdup (s : list ascii) : M heap pointer :=
  p <- malloc (Z.of_nat (S (strlen s))) ;
  match p with
  | None => ret None
  | Some b =>
      '(_, bs) <- deref p ;
      copy <- lift (strcpy bs s) ;
      store_block b copy ;;
      ret p
  end.

(** The string behind a pointer, as [strlen] and [%s] read it. *)
Definition string_at (p : pointer) : M heap (list ascii) :=
  '(_, bs) <- deref p ;
  lift (read_string bs).

Definition say (t : list ascii) (h : heap) : heap :=
  mkHeap (blocks h) (available h) (zero_size_null h) (fresh h)
         (console h ++ t).

Definition hprintf (fmt : list ascii) (args : list arg) : M heap unit :=
  t <- lift (format fmt args) ;
  modify (say t).

(** ** allocate_session *)

(** [allocate_session] returns after "Allocation failed", or at its end with
    the block it obtained, to which no pointer is kept. *)
Inductive allocate_exit : Type :=
  | AllocationFailed
  | SessionAllocated (session : nat).

Definition allocate_session (size : Z) : M heap allocate_exit :=
  session <- malloc ((size_t_of_int size * sizeof_char) mod 2 ^ SIZE_BITS) ;
  match session with
  | None =>
      hprintf (line "Allocation failed") [] ;;
      ret AllocationFailed
  | Some b =>
      memset session NUL (size_t_of_int size) ;;
      hprintf (line "Session allocated: %d bytes") [ArgInt size] ;;
      ret (SessionAllocated b)
  end.

(** ** process_token *)

Definition process_token (token : list ascii) : M heap unit :=
  token_copy <- strdup token ;
  s <- string_at token_copy ;
  (if (10 <? length s)%nat then free token_copy else ret tt) ;;
  s <- string_at token_copy ;
  hprintf (line "Processing token: %s") [ArgStr s].

(** ** check_and_read_config *)

Record file : Type := mkFile {
  content : list ascii;
  readable : bool
}.

(** The files by path. *)
Abbreviation filesystem := (gmap (list ascii) file).

(** [access(path, R_OK)]: 0 for a file that is there and may be read,
    -1 otherwise. *)
Definition access (path : list ascii) : M filesystem Z :=
  gets (fun fs =>
    match fs !! c_str path with
    | Some f => if readable f then 0 else -1
    | None => -1
    end).

(** [fopen(path, "r")]: the stream, given by the bytes left to read, or the
    null pointer. *)
Definition fopen (path : list ascii) : M filesystem (option (list ascii)) :=
  gets (fun fs =>
    match fs !! c_str path with
    | Some f => if readable f then Some (content f) else None
    | None => None
    end).

(** [fread(buffer, 1, n, fp)]: at most [n] bytes go to the start of
    [buffer]. *)
Definition fread (buffer : list ascii) (n : nat) (fp : list ascii)
  : result (list ascii) :=
  let got := take n fp in
  if (n <=? length buffer)%nat
  then Ok (got ++ drop (length got) buffer)
  else Fault (BufferOverflow (length buffer) n).

(** [fclose(fp)]: the files themselves are not touched. *)
Definition fclose (fp : list ascii) : M filesystem Z := ret 0.

(** [between] is what the other processes do to the files in the gap
    between the check and the use. *)
Definition check_and_read_config (between : filesystem -> filesystem)
    (filepath : list ascii) : M filesystem Z :=
  probe <- access filepath ;
  if probe =? 0 then
    modify between ;;
    fp <- fopen filepath ;
    match fp with
    | Some stream =>
        buffer <- lift (fread (automatic 1024) 1024 stream) ;
        fclose stream ;;
        ret 1
    | None => ret 0
    end
  else ret 0.

(** ** check_user_files *)

(** The commands handed to the command processor so far.  What a command
    does there is outside the program; the program decides its text. *)
Abbreviation shell := (list (list ascii)).

(** [system(command)]: the string in [command] goes to the command
    processor; the program does not look at the status. *)
Definition system (command : list ascii) : M shell unit :=
  text <- lift (read_string command) ;
  modify (fun log => log ++ [text]).

Definition check_user_files (name : list ascii) : M shell unit :=
  command <- lift (sprintf (automatic 256) (lit "ls -la /home/%s")
                     [ArgStr name]) ;
  system command.

(** ** Notions for the statements *)

(** Whether a record holds the two strings. *)
Definition holds (name pass : list ascii) (u : User) : bool :=
  bool_decide (c_str (username u) = c_str name)
  && bool_decide (c_str (password u) = c_str pass).

(** The index of the first record of [us] that holds the two strings, where
    [us] starts at index [i] of the array. *)
Fixpoint first_match (name pass : list ascii) (us : list User) (i : Z)
  : option Z :=
  match us with
  | [] => None
  | u :: rest =>
      if holds name pass u then Some i
      else first_match name pass rest (i + 1)
  end.

(** Every field of the array holds a string. *)
Definition strings_only (st : store) : Prop :=
  Forall (fun u => terminated (username u) = true
                   /\ terminated (password u) = true) (users st).

(** No record of the array is marked as an administrator. *)
Definition no_admin (st : store) : Prop :=
  Forall (fun u => is_admin u = 0) (users st).

(** A string without a percent sign, which [printf] prints as it is. *)
Definition percent_free (s : list ascii) : Prop := "%"%char ∉ c_str s.

(** Whether a file is at [path] and may be read. *)
Definition may_read (path : list ascii) (fs : filesystem) : bool :=
  match fs !! c_str path with
  | Some f => readable f
  | None => false
  end.

(** The record [register_user] leaves at the index it writes. *)
Definition registered (old : User) (name pass : list ascii) : User :=
  mkUser (c_str name ++ NUL :: drop (S (strlen name)) (username old))
         (c_str pass ++ NUL :: drop (S (strlen pass)) (password old))
         0.

(** The arrays of the store have their declared sizes. *)
Definition sized (st : store) : Prop :=
  length (users st) = Z.to_nat MAX_USERS
  /\ Forall (fun u => length (username u) = 32%nat
                      /\ length (password u) = 32%nat) (users st).

(** The invariant of the store between calls. *)
Definition store_ok (st : store) : Prop :=
  sized st /\ strings_only st /\ 0 <= user_count st <= MAX_USERS.

(** A pair of arguments that fits the two fields of a record. *)
Definition fits (input : list ascii * list ascii) : Prop :=
  (strlen input.1 < 32)%nat /\ (strlen input.2 < 32)%nat.

(** The store after one registration from the initial state. *)
Definition store_after (name pass : list ascii) : store :=
  match register_user name pass initial_store with
  | Ret _ st => st
  | Undefined _ => initial_store
  end.

(** The heap after one more block holding [bs] has been handed out. *)
Definition grown (h : heap) (bs : list ascii) : heap :=
  mkHeap (blocks h ++ [mkBlock bs true])
         (available h - Z.of_nat (length bs))
         (zero_size_null h) (fresh h) (console h).

(** ** Stepping through a run *)

Lemma bind_ret {S A B} (c : M S A) (k : A -> M S B) (s s' : S) (a : A) :
  c s = Ret a s' -> bind c k s = k a s'.
Proof. unfold bind. by intros ->. Qed.

Lemma bind_undefined {S A B} (c : M S A) (k : A -> M S B) (s : S) (e : ub) :
  c s = Undefined e -> bind c k s = Undefined e.
Proof. unfold bind. by intros ->. Qed.

Lemma bind_lift_ok {S A B} (r : result A) (k : A -> M S B) (s : S) (a : A) :
  r = Ok a -> bind (lift r) k s = k a s.
Proof. by intros ->. Qed.

Lemma bind_lift_fault {S A B} (r : result A) (k : A -> M S B) (s : S)
    (e : ub) :
  r = Fault e -> bind (lift r) k s = Undefined e.
Proof. by intros ->. Qed.

Lemma emit_emit (a b : list ascii) (st : store) :
  emit b (emit a st) = emit (a ++ b) st.
Proof. unfold emit; simpl. by rewrite <- app_assoc. Qed.

Lemma printf_ok (fmt : list ascii) (args : list arg) (t : list ascii)
    (st : store) :
  format fmt args = Ok t -> printf fmt args st = Ret tt (emit t st).
Proof. unfold printf. intros H. by rewrite (bind_lift_ok _ _ _ _ H). Qed.

Lemma printf_fault (fmt : list ascii) (args : list arg) (e : ub)
    (st : store) :
  format fmt args = Fault e -> printf fmt args st = Undefined e.
Proof. unfold printf. intros H. by rewrite (bind_lift_fault _ _ _ _ H). Qed.

(** Runs a closed library call and feeds its value to the rest. *)
Ltac step_lift :=
  erewrite bind_lift_ok by (vm_compute; reflexivity); cbv beta.

(** Runs a [printf] whose text is closed. *)
Ltac step_printf :=
  erewrite bind_ret by (apply printf_ok; vm_compute; reflexivity);
  cbv beta.

(** ** C strings: what the library calls leave behind *)

Lemma c_str_no_nul (m : list ascii) : NUL ∉ c_str m.
Proof.
  induction m as [|c m IH]; simpl; [apply not_elem_of_nil|].
  destruct (Ascii.eqb_spec c NUL) as [->|Hc]; [apply not_elem_of_nil|].
  rewrite elem_of_cons. intros [E|E]; [by symmetry in E|by apply IH].
Qed.

Lemma c_str_app_nul (s rest : list ascii) :
  NUL ∉ s -> c_str (s ++ NUL :: rest) = s.
Proof.
  induction s as [|c s IH]; simpl; intros Hs; [done|].
  rewrite not_elem_of_cons in Hs. destruct Hs as [Hc Hs].
  destruct (Ascii.eqb_spec c NUL) as [->|_]; [done|].
  by rewrite IH.
Qed.

Lemma c_str_stored (src rest : list ascii) :
  c_str (c_str src ++ NUL :: rest) = c_str src.
Proof. apply c_str_app_nul, c_str_no_nul. Qed.

Lemma c_str_idem (m : list ascii) : c_str (c_str m) = c_str m.
Proof.
  induction m as [|c m IH]; simpl; [done|].
  destruct (Ascii.eqb_spec c NUL) as [->|Hc]; [done|].
  simpl. destruct (Ascii.eqb_spec c NUL); [done|]. by rewrite IH.
Qed.

Lemma terminated_app_nul (s rest : list ascii) :
  terminated (s ++ NUL :: rest) = true.
Proof.
  unfold terminated. rewrite existsb_app.
  change (existsb (Ascii.eqb NUL) (NUL :: rest)) with true.
  apply orb_true_r.
Qed.

Lemma read_string_stored (src rest : list ascii) :
  read_string (c_str src ++ NUL :: rest) = Ok (c_str src).
Proof.
  unfold read_string. by rewrite terminated_app_nul, c_str_stored.
Qed.

Lemma strcpy_fits (dst src : list ascii) :
  (strlen src < length dst)%nat ->
  strcpy dst src = Ok (c_str src ++ NUL :: drop (S (strlen src)) dst).
Proof.
  unfold strcpy, strlen. intros H.
  destruct (Nat.leb_spec (S (length (c_str src))) (length dst)); [done|lia].
Qed.

Lemma strcpy_fits_inv (dst src out : list ascii) :
  strcpy dst src = Ok out ->
  out = c_str src ++ NUL :: drop (S (strlen src)) dst.
Proof.
  unfold strcpy, strlen.
  destruct (S (length (c_str src)) <=? length dst)%nat; [|done].
  by intros [= <-].
Qed.

Lemma strcpy_overflows (dst src : list ascii) :
  (length dst <= strlen src)%nat ->
  strcpy dst src = Fault (BufferOverflow (length dst) (S (strlen src))).
Proof.
  unfold strcpy, strlen. intros H.
  destruct (Nat.leb_spec (S (length (c_str src))) (length dst)); [lia|done].
Qed.

Lemma strcpy_length (dst src out : list ascii) :
  strcpy dst src = Ok out -> length out = length dst.
Proof.
  unfold strcpy.
  destruct (Nat.leb_spec (S (length (c_str src))) (length dst)) as [H|H];
    [|done].
  intros [= <-]. rewrite length_app. simpl. rewrite length_drop. lia.
Qed.

(** ** register_user, case by case *)

Lemma register_user_full (name pass : list ascii) (st : store) :
  MAX_USERS <= user_count st ->
  register_user name pass st
  = Ret MaxUsersReached (emit (line "Max users reached") st).
Proof.
  intros H. unfold register_user, bind at 1, gets.
  destruct (Z.leb_spec MAX_USERS (user_count st)); [|lia].
  step_printf. reflexivity.
Qed.

Lemma users_at_ok (i : Z) (u : User) (st : store) :
  0 <= i < MAX_USERS -> users st !! Z.to_nat i = Some u ->
  users_at i st = Ret u st.
Proof.
  intros [H0 H1] Hu. unfold users_at.
  destruct (Z.leb_spec 0 i); [|lia]. destruct (Z.ltb_spec i MAX_USERS); [|lia].
  simpl. by rewrite Hu.
Qed.

Lemma users_at_bad (i : Z) (st : store) :
  i < 0 \/ users st !! Z.to_nat i = None ->
  users_at i st = Undefined (IndexOutOfBounds i).
Proof.
  intros H. unfold users_at.
  destruct (Z.leb_spec 0 i); [|done].
  destruct (Z.ltb_spec i MAX_USERS); [|done]. simpl.
  destruct H as [H| ->]; [lia|done].
Qed.

Lemma register_user_run (name pass : list ascii) (st : store) :
  user_count st < MAX_USERS ->
  register_user name pass st =
  match users st !! Z.to_nat (user_count st) with
  | Some old =>
      if 0 <=? user_count st then
        match strcpy (username old) name with
        | Ok _ =>
            match strcpy (password old) pass with
            | Ok _ =>
                Ret (Registered (user_count st))
                  (mkStore (<[Z.to_nat (user_count st)
                              := registered old name pass]> (users st))
                           (user_count st + 1)
                           (stdout st ++ lit "User registered: "
                              ++ c_str name ++ [LF]))
            | Fault e => Undefined e
            end
        | Fault e => Undefined e
        end
      else Undefined (IndexOutOfBounds (user_count st))
  | None => Undefined (IndexOutOfBounds (user_count st))
  end.
Proof.
  intros Hlt. destruct st as [us n out]; simpl in Hlt |- *.
  unfold register_user.
  rewrite (bind_ret _ _ _ (mkStore us n out) n) by reflexivity.
  destruct (Z.leb_spec MAX_USERS n); [lia|].
  destruct (us !! Z.to_nat n) as [old|] eqn:Hold.
  2:{ apply bind_undefined, users_at_bad. by right. }
  destruct (Z.leb_spec 0 n) as [H0|H0].
  2:{ apply bind_undefined, users_at_bad. by left. }
  assert (Hin : (Z.to_nat n < length us)%nat) by (by eapply lookup_lt_Some).
  erewrite bind_ret by (by apply users_at_ok). cbv beta.
  destruct (strcpy (username old) name) as [f1|e] eqn:H1.
  2:{ by rewrite (bind_lift_fault _ _ _ _ eq_refl). }
  rewrite (bind_lift_ok _ _ _ _ eq_refl). cbv beta.
  erewrite bind_ret by reflexivity. cbv beta.
  erewrite bind_ret
    by (apply users_at_ok; [done|]; simpl; by apply list_lookup_insert_eq).
  cbv beta.
  cbn [username password is_admin].
  destruct (strcpy (password old) pass) as [f2|e] eqn:H2.
  2:{ by rewrite (bind_lift_fault _ _ _ _ eq_refl). }
  rewrite (bind_lift_ok _ _ _ _ eq_refl). cbv beta.
  erewrite bind_ret by reflexivity. cbv beta.
  erewrite bind_ret
    by (apply users_at_ok; [done|]; simpl; apply list_lookup_insert_eq;
        by rewrite length_insert).
  cbv beta. cbn [username password is_admin].
  erewrite bind_ret by reflexivity. cbv beta.
  erewrite bind_ret by reflexivity. cbv beta.
  erewrite bind_ret by (apply printf_ok; reflexivity). cbv beta.
  unfold ret, emit; cbn [users user_count stdout].
  rewrite !list_insert_insert_eq.
  apply strcpy_fits_inv in H1 as ->. apply strcpy_fits_inv in H2 as ->.
  reflexivity.
Qed.

(** What a return through the "User registered" exit tells. *)
Lemma register_user_done (name pass : list ascii) (st st' : store) (k : Z) :
  register_user name pass st = Ret (Registered k) st' ->
  k = user_count st /\ 0 <= k < MAX_USERS
  /\ exists old : User,
       users st !! Z.to_nat k = Some old
       /\ strcpy (username old) name
          = Ok (username (registered old name pass))
       /\ strcpy (password old) pass
          = Ok (password (registered old name pass))
       /\ st' = mkStore (<[Z.to_nat k := registered old name pass]> (users st))
                        (k + 1)
                        (stdout st ++ lit "User registered: "
                           ++ c_str name ++ [LF]).
Proof.
  intros H.
  destruct (Z.le_gt_cases MAX_USERS (user_count st)) as [Hfull|Hroom].
  { by rewrite register_user_full in H. }
  rewrite register_user_run in H by lia.
  destruct (users st !! Z.to_nat (user_count st)) as [old|] eqn:Hold; [|done].
  destruct (Z.leb_spec 0 (user_count st)) as [H0|]; [|done].
  destruct (strcpy (username old) name) as [f|] eqn:Hf; [|done].
  destruct (strcpy (password old) pass) as [g|] eqn:Hg; [|done].
  injection H as <- <-. split; [done|]. split; [lia|].
  pose proof (strcpy_fits_inv _ _ _ Hf) as ->.
  pose proof (strcpy_fits_inv _ _ _ Hg) as ->.
  by exists old.
Qed.

Lemma holds_registered (old : User) (name pass : list ascii) :
  holds name pass (registered old name pass) = true.
Proof.
  unfold holds, registered; cbn [username password].
  rewrite !c_str_stored. by rewrite !bool_decide_eq_true_2.
Qed.

(** ** Results about login *)

(** C1: with the built-in credential, [login] leaves through the admin exit
    in every store, whatever the array and the counter hold; the store is
    not read, and only the two messages are printed. *)
Theorem login_admin_granted (st : store) :
  login (lit "admin") ADMIN_PASSWORD st
  = Ret AdminGranted
      (emit (lit "Attempting login: admin" ++ [LF]
               ++ line "Admin login successful!") st).
Proof.
  unfold login.
  do 3 step_lift. do 3 step_printf. step_lift.
  replace (strcmp_eq (lit "admin") (lit "admin")
           && strcmp_eq ADMIN_PASSWORD ADMIN_PASSWORD) with true
    by (vm_compute; reflexivity).
  step_printf. unfold ret.
  rewrite !emit_emit. reflexivity.
Qed.

(** ** Results about register_user *)

Lemma initial_store_sized : sized initial_store.
Proof.
  split; [apply repeat_length|].
  apply Forall_forall. intros u Hu. apply list_elem_of_In, repeat_spec in Hu as ->. done.
Qed.

Lemma registered_sized (old : User) (name pass : list ascii) :
  length (username old) = 32%nat -> length (password old) = 32%nat ->
  fits (name, pass) ->
  length (username (registered old name pass)) = 32%nat
  /\ length (password (registered old name pass)) = 32%nat.
Proof.
  intros Hu Hp [Hn Hq]; simpl in *. unfold registered; simpl.
  rewrite !length_app; simpl. rewrite !length_drop. unfold strlen in *.
  lia.
Qed.

(** C9: a registration that succeeds on a store with [k] records writes the
    record at index [k], with [is_admin] 0 and the two strings as given,
    leaves every other element of the array as it was, and adds one to the
    counter; besides, it only prints its message. *)
Theorem register_user_frame (name pass : list ascii) (st st' : store)
    (k : Z) :
  register_user name pass st = Ret (Registered k) st' ->
  k = user_count st /\ 0 <= k < MAX_USERS
  /\ user_count st' = k + 1
  /\ length (users st') = length (users st)
  /\ (forall i : nat, i <> Z.to_nat k -> users st' !! i = users st !! i)
  /\ (exists u : User,
        users st' !! Z.to_nat k = Some u /\ is_admin u = 0
        /\ read_string (username u) = Ok (c_str name)
        /\ read_string (password u) = Ok (c_str pass))
  /\ stdout st' = stdout st ++ lit "User registered: " ++ c_str name ++ [LF].
Proof.
  intros H.
  destruct (register_user_done _ _ _ _ _ H)
    as (Hk & Hrange & old & Hold & _ & _ & ->).
  cbn [users user_count stdout].
  assert ((Z.to_nat k < length (users st))%nat) by (by eapply lookup_lt_Some).
  split; [done|]. split; [done|]. split; [done|].
  split; [apply length_insert|].
  split; [intros i Hi; by apply list_lookup_insert_ne|].
  split; [|done].
  exists (registered old name pass).
  split; [by apply list_lookup_insert_eq|]. split; [done|].
  split; apply read_string_stored.
Qed.

Lemma register_user_frame_witness :
  user_count (store_after (lit "alice") (lit "secret")) = 0 + 1
  /\ users (store_after (lit "alice") (lit "secret")) !! 1%nat
     = users initial_store !! 1%nat.
Proof.
  destruct (register_user_frame (lit "alice") (lit "secret") initial_store
              (store_after (lit "alice") (lit "secret")) 0)
    as (_ & _ & Hc & _ & Hother & _).
  - vm_compute. reflexivity.
  - split; [exact Hc|]. apply Hother. vm_compute. discriminate.
Defined.

Lemma register_user_fits (name pass : list ascii) (st : store) :
  sized st -> 0 <= user_count st < MAX_USERS -> fits (name, pass) ->
  exists st',
    register_user name pass st = Ret (Registered (user_count st)) st'
    /\ user_count st' = user_count st + 1 /\ sized st'.
Proof.
  intros [Hlen Hall] [H0 H1] Hfit.
  destruct (lookup_lt_is_Some_2 (users st) (Z.to_nat (user_count st)))
    as [old Hold].
  { rewrite Hlen. unfold MAX_USERS in *. lia. }
  destruct (Forall_lookup_1 _ _ _ _ Hall Hold) as [Hu Hp].
  destruct Hfit as [Hn Hq]; simpl in Hn, Hq.
  rewrite register_user_run, Hold by done.
  destruct (Z.leb_spec 0 (user_count st)); [|lia].
  rewrite !strcpy_fits by lia.
  eexists. split; [reflexivity|]. split; [done|].
  split; cbn [users].
  - by rewrite length_insert.
  - apply Forall_insert; [done|]. by apply registered_sized.
Qed.

Lemma register_all_run (inputs : list (list ascii * list ascii)) :
  forall st : store,
    sized st -> 0 <= user_count st ->
    user_count st + Z.of_nat (length inputs) <= MAX_USERS ->
    Forall fits inputs ->
    exists st',
      register_all inputs st
      = Ret (Registered <$> seqZ (user_count st) (Z.of_nat (length inputs)))
            st'
      /\ user_count st' = user_count st + Z.of_nat (length inputs)
      /\ sized st'.
Proof.
  induction inputs as [|[name pass] rest IH]; intros st Hs H0 Hroom Hfit.
  - exists st. simpl. rewrite Z.add_0_r. done.
  - simpl length in *. apply Forall_cons in Hfit as [Hfit Hrest].
    destruct (register_user_fits name pass st) as (st1 & Hrun & Hc & Hs1);
      [done|lia|done|].
    destruct (IH st1) as (st2 & Hall & Hc2 & Hs2); [done|lia|lia|done|].
    exists st2. split; [|split; [lia|done]].
    cbn [register_all].
    rewrite (bind_ret _ _ _ _ _ Hrun). cbv beta.
    rewrite (bind_ret _ _ _ _ _ Hall). cbv beta. unfold ret.
    rewrite Hc. replace (Z.of_nat (S (length rest)))
      with (Z.succ (Z.of_nat (length rest))) by lia.
    rewrite (seqZ_cons (user_count st)) by lia. rewrite Z.pred_succ.
    by rewrite fmap_cons.
Qed.

(** C3: from the initial store, one hundred registrations of pairs that fit
    their fields all succeed, at the indices 0 to 99; any further
    registration leaves through the "Max users reached" exit, with the array
    and the counter, which is 100, as they were. *)
Theorem register_capacity (inputs : list (list ascii * list ascii)) :
  length inputs = Z.to_nat MAX_USERS -> Forall fits inputs ->
  exists st : store,
    register_all inputs initial_store
    = Ret (Registered <$> seqZ 0 MAX_USERS) st
    /\ user_count st = MAX_USERS
    /\ forall name pass : list ascii,
         exists st' : store,
           register_user name pass st = Ret MaxUsersReached st'
           /\ user_count st' = MAX_USERS
           /\ users st' = users st
           /\ stdout st' = stdout st ++ line "Max users reached".
Proof.
  intros Hlen Hfit.
  destruct (register_all_run inputs initial_store) as (st & Hrun & Hc & _).
  - apply initial_store_sized.
  - done.
  - rewrite Hlen. done.
  - done.
  - rewrite Hlen in Hrun, Hc. exists st. split; [exact Hrun|].
    split; [exact Hc|]. intros name pass.
    exists (emit (line "Max users reached") st).
    split; [|done]. apply register_user_full. rewrite Hc. done.
Qed.

Lemma register_capacity_witness :
  exists st : store,
    register_all (repeat (lit "user", lit "secret") 100) initial_store
    = Ret (Registered <$> seqZ 0 MAX_USERS) st
    /\ user_count st = MAX_USERS
    /\ forall name pass : list ascii,
         exists st' : store,
           register_user name pass st = Ret MaxUsersReached st'
           /\ user_count st' = MAX_USERS
           /\ users st' = users st
           /\ stdout st' = stdout st ++ line "Max users reached".
Proof.
  apply (register_capacity (repeat (lit "user", lit "secret") 100)).
  - reflexivity.
  - apply Forall_forall. intros input Hin.
    apply list_elem_of_In, repeat_spec in Hin as ->.
    split; vm_compute; lia.
Defined.

(** C4: [register_user] has no check of lengths.  Where there is room in
    the store and an argument is longer than 31 characters, the run does not
    end in a refusal: it reaches the [strcpy] into the 32-byte field, which
    writes more than 32 bytes there. *)
Theorem register_user_overflows (name pass : list ascii) (st : store) :
  sized st -> 0 <= user_count st < MAX_USERS ->
  (31 < strlen name)%nat \/ (31 < strlen pass)%nat ->
  exists written : nat,
    register_user name pass st = Undefined (BufferOverflow 32 written)
    /\ (32 < written)%nat.
Proof.
  intros [Hlen Hall] [H0 H1] Hlong.
  destruct (lookup_lt_is_Some_2 (users st) (Z.to_nat (user_count st)))
    as [old Hold].
  { rewrite Hlen. unfold MAX_USERS in *. lia. }
  destruct (Forall_lookup_1 _ _ _ _ Hall Hold) as [Hu Hp].
  rewrite register_user_run, Hold by done.
  destruct (Z.leb_spec 0 (user_count st)); [|lia].
  destruct (Nat.lt_ge_cases 31 (strlen name)) as [Hn|Hn].
  - exists (S (strlen name)). rewrite strcpy_overflows, Hu by lia.
    split; [done|lia].
  - destruct Hlong as [?|Hq]; [lia|].
    exists (S (strlen pass)). rewrite strcpy_fits by lia.
    rewrite strcpy_overflows, Hp by lia. split; [done|lia].
Qed.

Lemma register_user_overflows_witness :
  exists written : nat,
    register_user (repeat "A"%char 32) (lit "pw") initial_store
    = Undefined (BufferOverflow 32 written)
    /\ (32 < written)%nat.
Proof.
  apply (register_user_overflows (repeat "A"%char 32) (lit "pw")
           initial_store).
  - apply initial_store_sized.
  - simpl. unfold MAX_USERS. lia.
  - left. vm_compute. lia.
Defined.

Lemma findByUsername_registered (name : list ascii) (us : list User)
    (k : nat) (u : User) :
  (k < length us)%nat -> c_str (username u) = c_str name ->
  head (filter (fun v => c_str (username v) = c_str name) (take k us)) = None ->
  head (filter (fun v => c_str (username v) = c_str name)
          (take (S k) (<[k := u]> us))) = Some u.
Proof.
  intros Hk Hu Hnone.
  assert (Hsplit : take (S k) (<[k := u]> us) = take k us ++ [u]).
  { rewrite (take_S_r _ _ u) by (by apply list_lookup_insert_eq).
    by rewrite take_insert_ge by lia. }
  rewrite Hsplit, filter_app.
  destruct (filter _ (take k us)) as [|v vs]; [|done].
  simpl. rewrite filter_cons. by destruct (decide _).
Qed.

(** C8: the record that a successful registration stores, and that a lookup
    by name returns when no earlier record bears the name, has the given
    name and [is_admin] 0, and its password field holds the password
    argument itself, character by character. *)
Theorem register_user_keeps_plaintext (name pass : list ascii)
    (st st' : store) (k : Z) :
  register_user name pass st = Ret (Registered k) st' ->
  findByUsername name st = None ->
  exists u : User,
    findByUsername name st' = Some u
    /\ c_str (username u) = c_str name
    /\ is_admin u = 0
    /\ c_str (password u) = c_str pass.
Proof.
  intros H Hnone.
  destruct (register_user_done _ _ _ _ _ H)
    as (-> & Hrange & old & Hold & _ & _ & ->).
  exists (registered old name pass).
  split.
  2:{ unfold registered; cbn [username password is_admin].
      by rewrite !c_str_stored. }
  unfold findByUsername in *. cbn [users user_count].
  replace (Z.to_nat (user_count st + 1)) with (S (Z.to_nat (user_count st)))
    by lia.
  apply findByUsername_registered.
  - by eapply lookup_lt_Some.
  - apply c_str_stored.
  - exact Hnone.
Qed.

Lemma register_user_keeps_plaintext_witness :
  exists u : User,
    findByUsername (lit "alice") (store_after (lit "alice") (lit "secret"))
    = Some u
    /\ c_str (username u) = c_str (lit "alice")
    /\ is_admin u = 0
    /\ c_str (password u) = c_str (lit "secret").
Proof.
  apply (register_user_keeps_plaintext (lit "alice") (lit "secret")
           initial_store (store_after (lit "alice") (lit "secret")) 0).
  - vm_compute. reflexivity.
  - vm_compute. reflexivity.
Defined.

(** ** Results about the heap *)

Lemma hprintf_ok (fmt : list ascii) (args : list arg) (t : list ascii)
    (h : heap) :
  format fmt args = Ok t -> hprintf fmt args h = Ret tt (say t h).
Proof. unfold hprintf. intros H. by rewrite (bind_lift_ok _ _ _ _ H). Qed.

Lemma malloc_ok (n : Z) (h : heap) :
  0 < n <= available h ->
  malloc n h
  = Ret (Some (length (blocks h))) (grown h (repeat (fresh h) (Z.to_nat n))).
Proof.
  intros [H0 H1]. unfold malloc, grown.
  destruct (Z.eqb_spec n 0); [lia|]. simpl.
  destruct (Z.leb_spec n (available h)); [|lia].
  rewrite repeat_length. by rewrite Z2Nat.id by lia.
Qed.

Lemma malloc_none (n : Z) (h : heap) :
  0 < n -> available h < n -> malloc n h = Ret None h.
Proof.
  intros H0 H1. unfold malloc.
  destruct (Z.eqb_spec n 0); [lia|]. simpl.
  by destruct (Z.leb_spec n (available h)); [lia|].
Qed.

Lemma deref_grown (h : heap) (bs : list ascii) :
  deref (Some (length (blocks h))) (grown h bs)
  = Ret (length (blocks h), bs) (grown h bs).
Proof.
  unfold deref, grown; simpl. by rewrite list_lookup_middle.
Qed.

Lemma store_block_grown (h : heap) (bs bs' : list ascii) :
  length bs' = length bs ->
  store_block (length (blocks h)) bs' (grown h bs) = Ret tt (grown h bs').
Proof.
  intros Hlen. unfold store_block, modify, grown; simpl.
  rewrite insert_app_r_alt by lia. rewrite Nat.sub_diag. simpl.
  by rewrite Hlen.
Qed.

Lemma strcpy_exact (s : list ascii) (c : ascii) :
  strcpy (repeat c (S (strlen s))) s = Ok (c_str s ++ [NUL]).
Proof.
  rewrite strcpy_fits by (rewrite repeat_length; lia).
  rewrite drop_ge by (by rewrite repeat_length). done.
Qed.

Lemma strdup_ok (s : list ascii) (h : heap) :
  Z.of_nat (S (strlen s)) <= available h ->
  strdup s h = Ret (Some (length (blocks h))) (grown h (c_str s ++ [NUL])).
Proof.
  intros Hroom. unfold strdup.
  erewrite bind_ret by (apply malloc_ok; lia). cbv beta.
  rewrite Nat2Z.id.
  erewrite bind_ret by apply deref_grown. cbv beta iota.
  rewrite (bind_lift_ok _ _ _ _ (strcpy_exact s (fresh h))). cbv beta.
  erewrite bind_ret.
  2:{ apply store_block_grown. rewrite length_app, repeat_length.
      unfold strlen. simpl. lia. }
  reflexivity.
Qed.

Lemma strdup_none (s : list ascii) (h : heap) :
  available h < Z.of_nat (S (strlen s)) -> strdup s h = Ret None h.
Proof.
  intros Hroom. unfold strdup.
  erewrite bind_ret by (apply malloc_none; lia). reflexivity.
Qed.

Lemma string_at_grown (h : heap) (s : list ascii) :
  string_at (Some (length (blocks h))) (grown h (c_str s ++ [NUL]))
  = Ret (c_str s) (grown h (c_str s ++ [NUL])).
Proof.
  unfold string_at.
  erewrite bind_ret by apply deref_grown. cbv beta iota.
  by rewrite read_string_stored.
Qed.

(** C10: for a token of at most ten characters, of which [strdup] can make
    a copy, [process_token] prints the token and leaves the copy as a live
    block holding the token and its terminator; the blocks that were there
    before are as they were. *)
Theorem process_token_short (token : list ascii) (h : heap) :
  (strlen token <= 10)%nat ->
  Z.of_nat (S (strlen token)) <= available h ->
  process_token token h
  = Ret tt (say (lit "Processing token: " ++ c_str token ++ [LF])
              (grown h (c_str token ++ [NUL]))).
Proof.
  intros Hshort Hroom. unfold process_token.
  erewrite bind_ret by (by apply strdup_ok). cbv beta.
  erewrite bind_ret by apply string_at_grown. cbv beta.
  destruct (Nat.ltb_spec 10 (length (c_str token))) as [Hlong|_].
  { unfold strlen in Hshort. lia. }
  erewrite bind_ret by reflexivity. cbv beta.
  erewrite bind_ret by apply string_at_grown. cbv beta.
  apply hprintf_ok. simpl. by rewrite c_str_idem.
Qed.

Lemma process_token_short_witness :
  process_token (lit "abcdefghij") (mkHeap [] 64 false "#"%char [])
  = Ret tt (say (lit "Processing token: " ++ c_str (lit "abcdefghij") ++ [LF])
              (grown (mkHeap [] 64 false "#"%char [])
                 (c_str (lit "abcdefghij") ++ [NUL]))).
Proof.
  apply (process_token_short (lit "abcdefghij")
           (mkHeap [] 64 false "#"%char [])).
  - vm_compute. lia.
  - vm_compute. discriminate.
Defined.

Lemma free_grown (h : heap) (bs : list ascii) :
  exists h' : heap,
    free (Some (length (blocks h))) (grown h bs) = Ret tt h'
    /\ blocks h' = blocks h ++ [mkBlock bs false].
Proof.
  unfold free, grown; simpl. rewrite list_lookup_middle by done.
  eexists. split; [reflexivity|]. simpl.
  rewrite insert_app_r_alt by lia. by rewrite Nat.sub_diag.
Qed.

(** C5: for a token of more than ten characters the copy is released before
    it is printed.  The read for [printf] then goes to the released block;
    where [strdup] had no storage, the first read goes through the null
    pointer.  No run for such a token ends in a return. *)
Theorem process_token_reads_released (token : list ascii) (h : heap) :
  (10 < strlen token)%nat ->
  process_token token h
  = Undefined (if Z.of_nat (S (strlen token)) <=? available h
               then UseAfterFree (length (blocks h))
               else NullDereference).
Proof.
  intros Hlong. unfold process_token.
  destruct (Z.leb_spec (Z.of_nat (S (strlen token))) (available h))
    as [Hroom|Hroom].
  - erewrite bind_ret by (by apply strdup_ok). cbv beta.
    erewrite bind_ret by apply string_at_grown. cbv beta.
    destruct (Nat.ltb_spec 10 (length (c_str token))) as [_|Hshort].
    2:{ unfold strlen in Hlong. lia. }
    destruct (free_grown h (c_str token ++ [NUL])) as (h' & Hfree & Hblocks).
    rewrite (bind_ret _ _ _ _ _ Hfree). cbv beta.
    apply bind_undefined. unfold string_at. apply bind_undefined.
    unfold deref. by rewrite Hblocks, list_lookup_middle.
  - erewrite bind_ret by (by apply strdup_none). cbv beta.
    by apply bind_undefined.
Qed.

Lemma process_token_reads_released_witness :
  process_token (lit "abcdefghijk") (mkHeap [] 64 false "#"%char [])
  = Undefined (UseAfterFree 0).
Proof.
  apply (process_token_reads_released (lit "abcdefghijk")
           (mkHeap [] 64 false "#"%char [])).
  vm_compute. lia.
Defined.

(** ** Results about allocate_session *)

Lemma memset_grown (h : heap) (bs : list ascii) (c : ascii) (n : Z) :
  0 <= n <= Z.of_nat (length bs) ->
  memset (Some (length (blocks h))) c n (grown h bs)
  = Ret tt (grown h (repeat c (Z.to_nat n) ++ drop (Z.to_nat n) bs)).
Proof.
  intros [H0 H1]. unfold memset.
  erewrite bind_ret by apply deref_grown. cbv beta iota.
  destruct (Z.leb_spec n (Z.of_nat (length bs))); [|lia].
  apply store_block_grown.
  rewrite length_app, repeat_length, length_drop. lia.
Qed.

Lemma request_small (size : Z) :
  0 <= size < 2 ^ SIZE_BITS ->
  (size_t_of_int size * sizeof_char) mod 2 ^ SIZE_BITS = size
  /\ size_t_of_int size = size.
Proof.
  intros H. unfold size_t_of_int, sizeof_char.
  rewrite Z.mul_1_r, Z.mod_mod by done. by rewrite Z.mod_small.
Qed.

Lemma request_negative (size : Z) :
  - 2 ^ 31 <= size < 0 ->
  (size_t_of_int size * sizeof_char) mod 2 ^ SIZE_BITS = 2 ^ SIZE_BITS + size
  /\ size_t_of_int size = 2 ^ SIZE_BITS + size.
Proof.
  intros H. unfold size_t_of_int, sizeof_char.
  rewrite Z.mul_1_r, Z.mod_mod by done.
  assert (size mod 2 ^ SIZE_BITS = 2 ^ SIZE_BITS + size) as ->; [|done].
  symmetry. apply (Z.mod_unique _ _ (-1)); unfold SIZE_BITS in *; lia.
Qed.

(** For an [int] above zero that the allocator can serve, the session is a
    fresh block of that many zero bytes, and the size is reported. *)
Lemma allocate_session_positive (size : Z) (h : heap) :
  0 < size < 2 ^ 31 -> size <= available h ->
  allocate_session size h
  = Ret (SessionAllocated (length (blocks h)))
      (say (lit "Session allocated: " ++ decimal size ++ line " bytes")
         (grown h (repeat NUL (Z.to_nat size)))).
Proof.
  intros Hint Hroom. unfold allocate_session.
  destruct (request_small size) as [-> ->].
  { unfold SIZE_BITS. lia. }
  erewrite bind_ret by (apply malloc_ok; lia). cbv beta iota.
  erewrite bind_ret by (apply memset_grown; rewrite repeat_length; lia).
  cbv beta. rewrite drop_ge by (rewrite repeat_length; lia).
  rewrite app_nil_r.
  erewrite bind_ret by (apply hprintf_ok; reflexivity). reflexivity.
Qed.

(** For a negative [int] the request is the size wrapped around to
    [size_t]; only the allocator's answer to that request decides between
    the two exits. *)
Lemma allocate_session_negative (size : Z) (h : heap) :
  - 2 ^ 31 <= size < 0 -> available h < 2 ^ SIZE_BITS + size ->
  malloc ((size_t_of_int size * sizeof_char) mod 2 ^ SIZE_BITS) h
  = malloc (2 ^ SIZE_BITS + size) h
  /\ allocate_session size h
     = Ret AllocationFailed (say (line "Allocation failed") h).
Proof.
  intros Hint Hroom. unfold allocate_session.
  destruct (request_negative size Hint) as [-> _]. split; [done|].
  erewrite bind_ret by (apply malloc_none; unfold SIZE_BITS in *; lia).
  cbv beta iota.
  erewrite bind_ret by (apply hprintf_ok; reflexivity). reflexivity.
Qed.

(** C6: [allocate_session] does not look at its argument before it calls
    [malloc].  With an allocator that serves a request of zero bytes with a
    pointer, a size of 0 leaves through the success exit: an empty block
    stays allocated and "Session allocated: 0 bytes" is printed. *)
Theorem allocate_session_zero (h : heap) :
  zero_size_null h = false -> 0 <= available h ->
  allocate_session 0 h
  = Ret (SessionAllocated (length (blocks h)))
      (say (lit "Session allocated: 0 bytes" ++ [LF]) (grown h [])).
Proof.
  intros Hpolicy Hroom. unfold allocate_session.
  change ((size_t_of_int 0 * sizeof_char) mod 2 ^ SIZE_BITS) with 0.
  change (size_t_of_int 0) with 0.
  assert (Hm : malloc 0 h = Ret (Some (length (blocks h))) (grown h [])).
  { unfold malloc, grown. rewrite Hpolicy. simpl.
    destruct (Z.leb_spec 0 (available h)); [|lia].
    reflexivity. }
  rewrite (bind_ret _ _ _ _ _ Hm). cbv beta iota.
  erewrite bind_ret by (apply memset_grown; simpl; lia). cbv beta.
  erewrite bind_ret by (apply hprintf_ok; reflexivity). reflexivity.
Qed.

Lemma allocate_session_zero_witness :
  allocate_session 0 (mkHeap [] 64 false "#"%char [])
  = Ret (SessionAllocated 0)
      (mkHeap [mkBlock [] true] 64 false "#"%char
         (lit "Session allocated: 0 bytes" ++ [LF])).
Proof.
  apply (allocate_session_zero (mkHeap [] 64 false "#"%char [])).
  - reflexivity.
  - vm_compute. discriminate.
Defined.

(** ** Results about check_and_read_config *)

(** Whether a file is at [path] and may be read. *)
Lemma access_run (path : list ascii) (fs : filesystem) :
  access path fs
  = Ret (match fs !! c_str path with
         | Some f => if readable f then 0 else -1
         | None => -1
         end) fs.
Proof. reflexivity. Qed.

(** The value depends on the probe before the gap and on the open after it,
    and is 1 or 0 only. *)
Lemma check_and_read_config_run (between : filesystem -> filesystem)
    (path : list ascii) (fs : filesystem) :
  check_and_read_config between path fs
  = match fs !! c_str path with
    | Some f =>
        if readable f then
          match between fs !! c_str path with
          | Some g => Ret (if readable g then 1 else 0) (between fs)
          | None => Ret 0 (between fs)
          end
        else Ret 0 fs
    | None => Ret 0 fs
    end.
Proof.
  unfold check_and_read_config.
  rewrite (bind_ret _ _ _ _ _ (access_run path fs)). cbv beta.
  destruct (fs !! c_str path) as [f|]; [|done].
  destruct (readable f); [|done]. simpl.
  erewrite bind_ret by reflexivity. cbv beta.
  erewrite bind_ret by reflexivity. cbv beta.
  destruct (between fs !! c_str path) as [g|]; [|done].
  destruct (readable g); reflexivity.
Qed.

(** C7: [check_and_read_config] probes with [access] and opens only after a
    probe that succeeded.  A missing file and a file without read permission
    give the same value 0; so does a file removed in the gap, and a file
    that was not there at the probe is not opened although it is there at
    the time of the open.  A file that is read gives 1, and not its
    content. *)
Theorem check_and_read_config_probes_first :
  let path := lit "/etc/app.conf" in
  let locked := mkFile (lit "key=1") false in
  let plain := mkFile (lit "key=1") true in
  check_and_read_config id path ∅ = Ret 0 ∅
  /\ check_and_read_config id path {[path := locked]}
     = Ret 0 {[path := locked]}
  /\ check_and_read_config (delete path) path {[path := plain]} = Ret 0 ∅
  /\ check_and_read_config (insert path plain) path ∅ = Ret 0 ∅
  /\ check_and_read_config id path {[path := plain]}
     = Ret 1 {[path := plain]}.
Proof.
  intros path locked plain.
  assert (Hp : c_str path = path) by (vm_compute; reflexivity).
  rewrite !check_and_read_config_run, !Hp.
  rewrite lookup_empty, !lookup_singleton_eq. simpl.
  rewrite delete_singleton_eq, lookup_empty, lookup_singleton_eq. done.
Qed.

(** ** More results about login *)

Lemma automatic_length (n : nat) : length (automatic n) = n.
Proof. apply repeat_length. Qed.

Lemma strcat_stored (d rest src : list ascii) :
  NUL ∉ d ->
  strcat (d ++ NUL :: rest) src
  = if (S (length d + strlen src) <=? length (d ++ NUL :: rest))%nat
    then Ok (d ++ c_str src ++ NUL
               :: drop (S (length d + strlen src)) (d ++ NUL :: rest))
    else Fault (BufferOverflow (length (d ++ NUL :: rest))
                               (S (length d + strlen src))).
Proof.
  intros Hd. unfold strcat, read_string.
  by rewrite terminated_app_nul, c_str_app_nul.
Qed.

(** C2: [login] copies its arguments into a buffer of 64 bytes before it
    looks at the store.  When the two strings have more than 62 characters
    together, the run ends in a write past that buffer and never reaches
    the scan. *)
Theorem login_overflows (name pass : list ascii) (st : store) :
  (62 < strlen name + strlen pass)%nat ->
  exists written : nat,
    login name pass st = Undefined (BufferOverflow 64 written)
    /\ (64 < written)%nat.
Proof.
  intros Hlong. unfold login.
  destruct (Nat.le_gt_cases 64 (strlen name)) as [H1|H1].
  { exists (S (strlen name)). split; [|lia].
    apply bind_lift_fault. apply (strcpy_overflows (automatic 64)).
    by rewrite automatic_length. }
  rewrite (bind_lift_ok _ _ _ _
             (strcpy_fits (automatic 64) name
                ltac:(by rewrite automatic_length))). cbv beta.
  assert (Hlen : forall t, (length t <= 63)%nat ->
            length (t ++ NUL :: drop (S (length t)) (automatic 64)) = 64%nat).
  { intros t Ht.
    rewrite length_app, length_cons, length_drop, automatic_length. lia. }
  rewrite strcat_stored by apply c_str_no_nul.
  fold (strlen name). rewrite Hlen by (unfold strlen in H1; lia).
  change (strlen (lit ":")) with 1%nat.
  destruct (Nat.leb_spec (S (strlen name + 1)) 64) as [H2|H2].
  2:{ exists (S (strlen name + 1)). split; [|lia]. done. }
  rewrite (bind_lift_ok _ _ _ _ eq_refl). cbv beta.
  rewrite app_assoc.
  rewrite strcat_stored.
  2:{ rewrite not_elem_of_app. split; [apply c_str_no_nul|].
      change (c_str (lit ":")) with [":"%char].
      rewrite elem_of_cons, elem_of_nil. intros [E|[]]. discriminate E. }
  rewrite length_app. change (length (c_str (lit ":"))) with 1%nat.
  fold (strlen name).
  assert (Hbuf : length ((c_str name ++ c_str (lit ":")) ++ NUL
                   :: drop (S (strlen name + 1))
                        (c_str name ++ NUL
                           :: drop (S (strlen name)) (automatic 64)))
                 = 64%nat).
  { rewrite !length_app, length_cons, length_drop, length_app, length_cons.
    rewrite length_drop, automatic_length.
    unfold strlen in *. change (length (c_str (lit ":"))) with 1%nat. lia. }
  rewrite Hbuf.
  destruct (Nat.leb_spec (S (strlen name + 1 + strlen pass)) 64); [lia|].
  exists (S (strlen name + 1 + strlen pass)). split; [done|lia].
Qed.

Lemma login_overflows_witness :
  exists written : nat,
    login (repeat "a"%char 62) (lit "x") initial_store
    = Undefined (BufferOverflow 64 written)
    /\ (64 < written)%nat.
Proof.
  apply (login_overflows (repeat "a"%char 62) (lit "x") initial_store).
  vm_compute. lia.
Defined.

Lemma users_emit (t : list ascii) (st : store) :
  users (emit t st) = users st /\ user_count (emit t st) = user_count st.
Proof. done. Qed.

Lemma read_string_terminated (a : list ascii) :
  terminated a = true -> read_string a = Ok (c_str a).
Proof. unfold read_string. by intros ->. Qed.

(** The loop of [login] stops at the first record that holds both strings,
    and falls through to "Login failed!" when there is none. *)
Lemma login_scan_run (name pass : list ascii) (st : store) (n : nat) :
  forall i : Z,
    0 <= i -> i + Z.of_nat n <= MAX_USERS ->
    (Z.to_nat i + n <= length (users st))%nat ->
    strings_only st ->
    login_scan n i name pass st
    = match first_match name pass
              (take n (drop (Z.to_nat i) (users st))) i with
      | Some j =>
          Ret (UserGranted j)
            (emit (lit "Login successful for user: " ++ c_str name ++ [LF])
               st)
      | None => Ret Denied (emit (line "Login failed!") st)
      end.
Proof.
  induction n as [|n IH]; intros i H0 Hmax Hlen Hstr.
  - simpl. by step_printf.
  - destruct (lookup_lt_is_Some_2 (users st) (Z.to_nat i)) as [u Hu]; [lia|].
    rewrite (drop_S _ _ _ Hu). cbn [take first_match login_scan].
    erewrite bind_ret by (apply users_at_ok; [lia|exact Hu]). cbv beta.
    destruct (Forall_lookup_1 _ _ _ _ Hstr Hu) as [Tu Tp].
    rewrite (bind_lift_ok _ _ _ _ (read_string_terminated _ Tu)). cbv beta.
    unfold holds.
    replace (Z.to_nat i + 1)%nat with (Z.to_nat (i + 1)) in * by lia.
    replace (S (Z.to_nat i)) with (Z.to_nat (i + 1)) by lia.
    destruct (bool_decide (c_str (username u) = c_str name)); simpl.
    + rewrite (bind_lift_ok _ _ _ _ (read_string_terminated _ Tp)).
      cbv beta.
      destruct (bool_decide (c_str (password u) = c_str pass)).
      * erewrite bind_ret by (apply printf_ok; reflexivity). done.
      * apply IH; [lia|lia|lia|done].
    + apply IH; [lia|lia|lia|done].
Qed.

Lemma first_match_found (name pass : list ascii) (us : list User) :
  forall i j : Z,
    first_match name pass us i = Some j ->
    exists u : User,
      i <= j /\ us !! Z.to_nat (j - i) = Some u
      /\ holds name pass u = true
      /\ forall (k : nat) (v : User),
           (k < Z.to_nat (j - i))%nat -> us !! k = Some v ->
           holds name pass v = false.
Proof.
  induction us as [|u us IH]; intros i j H; [done|].
  simpl in H. destruct (holds name pass u) eqn:Hu.
  - injection H as <-. exists u. rewrite Z.sub_diag.
    split; [lia|]. split; [done|]. split; [done|].
    intros k v Hk. simpl in Hk. lia.
  - destruct (IH _ _ H) as (w & Hij & Hw & Hh & Hbefore).
    exists w. replace (Z.to_nat (j - i)) with (S (Z.to_nat (j - (i + 1))))
      by lia.
    split; [lia|]. split; [done|]. split; [done|].
    intros [|k] v Hk Hv; simpl in Hv.
    + by injection Hv as <-.
    + apply (Hbefore k v); [lia|done].
Qed.

Lemma first_match_none (name pass : list ascii) (us : list User) (i : Z) :
  first_match name pass us i = None ->
  Forall (fun u => holds name pass u = false) us.
Proof.
  revert i. induction us as [|u us IH]; intros i H; [constructor|].
  simpl in H. destruct (holds name pass u) eqn:Hu; [done|].
  constructor; [done|]. by eapply IH.
Qed.

Lemma login_buffer_fits {A : Type} (name pass : list ascii)
    (k : list ascii -> M store A) (st : store) :
  (strlen name + strlen pass <= 62)%nat ->
  exists buffer : list ascii,
    (buffer <- lift (strcpy (automatic 64) name) ;
     buffer <- lift (strcat buffer (lit ":")) ;
     buffer <- lift (strcat buffer pass) ;
     k buffer) st
    = k buffer st.
Proof.
  intros Hfit.
  rewrite (bind_lift_ok _ _ _ _
             (strcpy_fits (automatic 64) name
                ltac:(rewrite automatic_length; lia))). cbv beta.
  rewrite strcat_stored by apply c_str_no_nul.
  fold (strlen name). change (strlen (lit ":")) with 1%nat.
  rewrite length_app, length_cons, length_drop, automatic_length.
  fold (strlen name).
  destruct (Nat.leb_spec (S (strlen name + 1))
              (strlen name + S (64 - S (strlen name)))); [|lia].
  rewrite (bind_lift_ok _ _ _ _ eq_refl). cbv beta.
  rewrite app_assoc, strcat_stored.
  2:{ rewrite not_elem_of_app. split; [apply c_str_no_nul|].
      change (c_str (lit ":")) with [":"%char].
      rewrite elem_of_cons, elem_of_nil. intros [E|[]]. discriminate E. }
  rewrite !length_app, length_cons, length_drop, length_app, length_cons.
  rewrite length_drop, automatic_length.
  change (length (c_str (lit ":"))) with 1%nat. fold (strlen name).
  match goal with
  | |- context [if (?a <=? ?b)%nat then _ else _] =>
      destruct (Nat.leb_spec a b); [|lia]
  end.
  rewrite (bind_lift_ok _ _ _ _ eq_refl). cbv beta.
  eexists. reflexivity.
Qed.

Lemma sprintf_query_fits (name pass : list ascii) :
  (strlen name + strlen pass <= 62)%nat ->
  exists query : list ascii,
    sprintf (automatic 256)
      (lit "SELECT * FROM users WHERE username='%s' AND password='%s'")
      [ArgStr name; ArgStr pass]
    = Ok query.
Proof.
  intros Hfit. unfold sprintf.
  replace (format _ _)
    with (Ok (lit "SELECT * FROM users WHERE username='" ++ c_str name
                ++ lit "' AND password='" ++ c_str pass ++ lit "'"))
    by reflexivity.
  rewrite !length_app, automatic_length.
  change (length (lit "SELECT * FROM users WHERE username='")) with 36%nat.
  change (length (lit "' AND password='")) with 16%nat.
  change (length (lit "'")) with 1%nat. fold (strlen name) (strlen pass).
  match goal with
  | |- context [if (?a <=? ?b)%nat then _ else _] =>
      destruct (Nat.leb_spec a b); [|lia]
  end.
  eexists. reflexivity.
Qed.

(** For arguments that fit the buffer, that are not the built-in credential
    and whose name [printf] can take as a format, [login] returns what the
    scan of the first [user_count] records gives: the index of the first
    record that holds both strings, or [Denied]. *)
Lemma login_in_bounds (name pass shown : list ascii) (st : store) :
  store_ok st ->
  (strlen name + strlen pass <= 62)%nat ->
  format name [] = Ok shown ->
  strcmp_eq name (lit "admin") && strcmp_eq pass ADMIN_PASSWORD = false ->
  login name pass st
  = match first_match name pass
            (take (Z.to_nat (user_count st)) (users st)) 0 with
    | Some j =>
        Ret (UserGranted j)
          (emit (lit "Attempting login: " ++ shown ++ [LF]
                   ++ lit "Login successful for user: " ++ c_str name
                   ++ [LF]) st)
    | None =>
        Ret Denied
          (emit (lit "Attempting login: " ++ shown ++ [LF]
                   ++ line "Login failed!") st)
    end.
Proof.
  intros ([Hlen Hsize] & Hstr & Hcount) Hfit Hshown Hadmin. unfold login.
  edestruct (@login_buffer_fits login_exit name pass) as [buffer Hbuf];
    [exact Hfit|].
  rewrite Hbuf. clear Hbuf. cbv beta.
  step_printf.
  erewrite bind_ret by (apply printf_ok; exact Hshown). cbv beta.
  step_printf.
  destruct (sprintf_query_fits name pass Hfit) as [query Hq].
  rewrite (bind_lift_ok _ _ _ _ Hq). cbv beta.
  rewrite Hadmin.
  erewrite bind_ret by reflexivity. cbv beta.
  rewrite !emit_emit.
  rewrite login_scan_run; cbn [users user_count emit];
    [|lia|unfold MAX_USERS in *; lia|unfold MAX_USERS in *; lia|done].
  rewrite drop_0.
  destruct (first_match _ _ _ _); rewrite emit_emit, <- !app_assoc; done.
Qed.

(** A name with a conversion in it is taken as a format by [printf(username)],
    which has no argument for it. *)
Lemma login_format_conversion (st : store) :
  login (lit "%s") (lit "x") st = Undefined BadFormat.
Proof.
  unfold login. do 3 step_lift. step_printf.
  apply bind_undefined, printf_fault. reflexivity.
Qed.

(** ** The invariant of the store *)

Lemma initial_store_ok : store_ok initial_store.
Proof.
  split; [apply initial_store_sized|]. split; [|done].
  apply Forall_forall. intros u Hu.
  apply list_elem_of_In, repeat_spec in Hu as ->. done.
Qed.

(** Every return of [register_user] leaves a store that satisfies the
    invariant again. *)
Lemma register_user_ok (name pass : list ascii) (st st' : store)
    (r : register_exit) :
  store_ok st -> register_user name pass st = Ret r st' -> store_ok st'.
Proof.
  intros ([Hlen Hsize] & Hstr & Hcount) H. destruct r as [|k].
  { destruct (Z.le_gt_cases MAX_USERS (user_count st)) as [Hfull|Hroom].
    - rewrite register_user_full in H by done. by injection H as <-.
    - rewrite register_user_run in H by lia.
      by repeat case_match. }
  destruct (register_user_done _ _ _ _ _ H)
    as (-> & Hrange & old & Hold & Hf & Hg & ->).
  apply strcpy_length in Hf, Hg.
  destruct (Forall_lookup_1 _ _ _ _ Hsize Hold) as [Hu Hp].
  split; [split|split]; cbn [users user_count].
  - by rewrite length_insert.
  - apply Forall_insert; [done|]. split; congruence.
  - apply Forall_insert; [done|].
    split; cbn [registered username password]; apply terminated_app_nul.
  - lia.
Qed.

(** A registration that fits, followed by a login with the same pair,
    grants a user at an index not behind the one just written: the first
    record in the order of the array that holds both strings. *)
Lemma login_after_register (name pass shown : list ascii) (st st' : store)
    (k : Z) :
  store_ok st ->
  register_user name pass st = Ret (Registered k) st' ->
  (strlen name + strlen pass <= 62)%nat ->
  format name [] = Ok shown ->
  strcmp_eq name (lit "admin") && strcmp_eq pass ADMIN_PASSWORD = false ->
  exists (j : Z) (st'' : store),
    login name pass st' = Ret (UserGranted j) st'' /\ 0 <= j <= k.
Proof.
  intros Hok Hreg Hfit Hshown Hadmin.
  pose proof (register_user_ok _ _ _ _ _ Hok Hreg) as Hok'.
  rewrite (login_in_bounds name pass shown st' Hok' Hfit Hshown Hadmin).
  destruct (register_user_done _ _ _ _ _ Hreg)
    as (-> & Hrange & old & Hold & _ & _ & ->).
  cbn [users user_count].
  assert (Hin : take (Z.to_nat (user_count st + 1))
                  (<[Z.to_nat (user_count st) := registered old name pass]>
                     (users st))
                  !! Z.to_nat (user_count st)
                = Some (registered old name pass)).
  { rewrite lookup_take_lt by lia. apply list_lookup_insert_eq.
    by eapply lookup_lt_Some. }
  destruct (first_match name pass _ 0) as [j|] eqn:Hj.
  - destruct (first_match_found _ _ _ _ _ Hj) as (v & H0 & Hv & _ & Hfirst).
    eexists j, _. split; [reflexivity|]. split; [done|].
    destruct (Z.le_gt_cases j (user_count st)) as [|Hlate]; [done|].
    exfalso.
    pose proof (holds_registered old name pass) as Hh.
    assert (Hk : (Z.to_nat (user_count st) < Z.to_nat (j - 0))%nat) by lia.
    by rewrite (Hfirst _ _ Hk Hin) in Hh.
  - exfalso. apply first_match_none in Hj.
    pose proof (Forall_lookup_1 _ _ _ _ Hj Hin) as Hh. simpl in Hh.
    by rewrite holds_registered in Hh.
Qed.

(** ** Reading a run backwards *)

Lemma bind_inv {S A B} (c : M S A) (k : A -> M S B) (s s'' : S) (b : B) :
  bind c k s = Ret b s'' ->
  exists (a : A) (s' : S), c s = Ret a s' /\ k a s' = Ret b s''.
Proof.
  unfold bind. destruct (c s) as [a s'|e]; [|done]. intros H. by exists a, s'.
Qed.

Lemma lift_inv {S A} (r : result A) (s s' : S) (a : A) :
  lift r s = Ret a s' -> r = Ok a /\ s' = s.
Proof. destruct r as [x|e]; [|done]. by intros [= -> ->]. Qed.

Lemma printf_inv (fmt : list ascii) (args : list arg) (st st' : store)
    (x : unit) :
  printf fmt args st = Ret x st' ->
  exists t : list ascii, format fmt args = Ok t /\ st' = emit t st.
Proof.
  unfold printf. intros H.
  apply bind_inv in H as (t & s & Ht & H). apply lift_inv in Ht as [Ht ->].
  exists t. split; [done|]. by injection H as <-.
Qed.

Lemma users_at_inv (i : Z) (st st' : store) (u : User) :
  users_at i st = Ret u st' ->
  0 <= i < MAX_USERS /\ users st !! Z.to_nat i = Some u /\ st' = st.
Proof.
  unfold users_at.
  destruct (Z.leb_spec 0 i); [|done]. destruct (Z.ltb_spec i MAX_USERS); [|done].
  simpl. destruct (users st !! Z.to_nat i) as [v|]; [|done].
  intros [= -> ->]. done.
Qed.

Lemma read_string_inv (a s : list ascii) :
  read_string a = Ok s -> s = c_str a.
Proof. unfold read_string. destruct (terminated a); [|done]. by intros [= <-]. Qed.

(** Whatever the array holds, a loop that returns has stopped at the first
    record that holds both strings, or has found none. *)
Lemma login_scan_inv (name pass : list ascii) (st : store) (n : nat) :
  forall (i : Z) (r : login_exit) (st' : store),
    0 <= i ->
    login_scan n i name pass st = Ret r st' ->
    match first_match name pass
            (take n (drop (Z.to_nat i) (users st))) i with
    | Some j =>
        r = UserGranted j
        /\ st' = emit (lit "Login successful for user: " ++ c_str name
                        ++ [LF]) st
    | None => r = Denied /\ st' = emit (line "Login failed!") st
    end.
Proof.
  induction n as [|n IH]; intros i r st' H0 H.
  - simpl in H |- *. apply bind_inv in H as ([] & s & Hp & H).
    apply printf_inv in Hp as (t & Ht & ->). injection Ht as <-.
    by injection H as <- <-.
  - cbn [login_scan] in H.
    apply bind_inv in H as (u & s & Hu & H).
    apply users_at_inv in Hu as (Hi & Hu & ->).
    rewrite (drop_S _ _ _ Hu). cbn [take first_match]. unfold holds.
    replace (S (Z.to_nat i)) with (Z.to_nat (i + 1)) by lia.
    apply bind_inv in H as (sn & s & Hn & H).
    apply lift_inv in Hn as [Hn ->]. apply read_string_inv in Hn as ->.
    destruct (bool_decide (c_str (username u) = c_str name)); simpl.
    + apply bind_inv in H as (sp & s & Hp & H).
      apply lift_inv in Hp as [Hp ->]. apply read_string_inv in Hp as ->.
      destruct (bool_decide (c_str (password u) = c_str pass)).
      * apply bind_inv in H as ([] & s & Hp & H).
        apply printf_inv in Hp as (t & Ht & ->). injection Ht as <-.
        by injection H as <- <-.
      * apply IH; [lia|done].
    + apply IH; [lia|done].
Qed.

(** Names the text of a [printf] whose format is closed. *)
Ltac closed_text H t v :=
  assert (t = v) as -> by (vm_compute in H; by injection H as <-); clear H.

(** What a return of [login] tells about the steps before it. *)
Lemma login_inv (name pass : list ascii) (st st' : store) (r : login_exit) :
  login name pass st = Ret r st' ->
  exists shown : list ascii,
    format name [] = Ok shown
    /\ if strcmp_eq name (lit "admin") && strcmp_eq pass ADMIN_PASSWORD
       then r = AdminGranted
            /\ st' = emit (lit "Attempting login: " ++ shown ++ [LF]
                             ++ line "Admin login successful!") st
       else login_scan (Z.to_nat (user_count st)) 0 name pass
              (emit (lit "Attempting login: " ++ shown ++ [LF]) st)
            = Ret r st'.
Proof.
  unfold login. intros H.
  apply bind_inv in H as (b1 & s & Hb & H). apply lift_inv in Hb as [_ ->].
  apply bind_inv in H as (b2 & s & Hb & H). apply lift_inv in Hb as [_ ->].
  apply bind_inv in H as (b3 & s & Hb & H). apply lift_inv in Hb as [_ ->].
  apply bind_inv in H as ([] & s & Hp & H).
  apply printf_inv in Hp as (t1 & Ht1 & ->).
  closed_text Ht1 t1 (lit "Attempting login: ").
  apply bind_inv in H as ([] & s & Hp & H).
  apply printf_inv in Hp as (shown & Hshown & ->).
  apply bind_inv in H as ([] & s & Hp & H).
  apply printf_inv in Hp as (t3 & Ht3 & ->). closed_text Ht3 t3 [LF].
  apply bind_inv in H as (q & s & Hq & H). apply lift_inv in Hq as [_ ->].
  rewrite !emit_emit, <- ?app_assoc in H.
  exists shown. split; [done|].
  destruct (strcmp_eq name (lit "admin") && strcmp_eq pass ADMIN_PASSWORD).
  - apply bind_inv in H as ([] & s & Hp & H).
    apply printf_inv in Hp as (t & Ht & ->).
    closed_text Ht t (line "Admin login successful!").
    injection H as <- <-. rewrite emit_emit.
    by rewrite (app_assoc shown [LF] (line "Admin login successful!")).
  - apply bind_inv in H as (n & s & Hn & H). by injection Hn as <- <-.
Qed.

Lemma holds_true (name pass : list ascii) (u : User) :
  holds name pass u = true ->
  c_str (username u) = c_str name /\ c_str (password u) = c_str pass.
Proof.
  unfold holds. intros H. apply andb_prop in H as [H1 H2].
  apply bool_decide_eq_true in H1, H2. done.
Qed.

(** A grant or a refusal comes from the loop, which the admin pair never
    reaches. *)
Lemma login_scan_of_login (name pass : list ascii) (st st' : store)
    (r : login_exit) :
  login name pass st = Ret r st' -> r <> AdminGranted ->
  strcmp_eq name (lit "admin") && strcmp_eq pass ADMIN_PASSWORD = false
  /\ exists shown : list ascii,
       format name [] = Ok shown
       /\ match first_match name pass
                  (take (Z.to_nat (user_count st)) (users st)) 0 with
          | Some j =>
              r = UserGranted j
              /\ st' = emit (lit "Attempting login: " ++ shown ++ [LF]
                               ++ lit "Login successful for user: "
                               ++ c_str name ++ [LF]) st
          | None =>
              r = Denied
              /\ st' = emit (lit "Attempting login: " ++ shown ++ [LF]
                               ++ line "Login failed!") st
          end.
Proof.
  intros H Hr. apply login_inv in H as (shown & Hshown & H).
  destruct (strcmp_eq name (lit "admin") && strcmp_eq pass ADMIN_PASSWORD).
  { by destruct H. }
  split; [done|]. exists shown. split; [done|].
  apply login_scan_inv in H; [|done]. cbn [users emit] in H.
  rewrite drop_0 in H.
  destruct (first_match _ _ _ _); destruct H as [-> ->];
    (split; [done|]); by rewrite emit_emit, <- !app_assoc.
Qed.

(** X1: [login] leaves through the "Login successful" exit only at an index
    below [user_count] whose record holds exactly the name and the password
    given, and no record before it holds both. *)
Theorem login_grants_first_match (name pass : list ascii) (st st' : store)
    (j : Z) :
  login name pass st = Ret (UserGranted j) st' ->
  0 <= j < user_count st
  /\ (exists u : User,
        users st !! Z.to_nat j = Some u
        /\ c_str (username u) = c_str name
        /\ c_str (password u) = c_str pass)
  /\ forall (i : Z) (v : User),
       0 <= i < j -> users st !! Z.to_nat i = Some v ->
       holds name pass v = false.
Proof.
  intros H. apply login_scan_of_login in H as (_ & shown & _ & H); [|done].
  destruct (first_match _ _ _ _) as [j'|] eqn:Hj; [|by destruct H].
  destruct H as [[= <-] _].
  destruct (first_match_found _ _ _ _ _ Hj) as (u & H0 & Hu & Hh & Hfirst).
  rewrite Z.sub_0_r in Hu, Hfirst.
  apply lookup_take_Some in Hu as [Hu Hlt].
  split; [lia|]. split.
  - exists u. split; [done|]. by apply holds_true.
  - intros i v Hi Hv. apply (Hfirst (Z.to_nat i)); [lia|].
    apply lookup_take_Some. split; [done|lia].
Qed.

Lemma login_grants_first_match_witness :
  0 <= 0 < user_count (store_after (lit "alice") (lit "secret"))
  /\ (exists u : User,
        users (store_after (lit "alice") (lit "secret")) !! Z.to_nat 0
        = Some u
        /\ c_str (username u) = c_str (lit "alice")
        /\ c_str (password u) = c_str (lit "secret"))
  /\ forall (i : Z) (v : User),
       0 <= i < 0 ->
       users (store_after (lit "alice") (lit "secret")) !! Z.to_nat i
       = Some v ->
       holds (lit "alice") (lit "secret") v = false.
Proof.
  eapply (login_grants_first_match (lit "alice") (lit "secret")
            (store_after (lit "alice") (lit "secret")) _ 0).
  vm_compute. reflexivity.
Defined.

(** X2: when [login] leaves through the "Login failed!" exit, the arguments
    are not the built-in pair and none of the first [user_count] records
    holds both the name and the password. *)
Theorem login_denied_no_match (name pass : list ascii) (st st' : store) :
  login name pass st = Ret Denied st' ->
  strcmp_eq name (lit "admin") && strcmp_eq pass ADMIN_PASSWORD = false
  /\ forall (i : Z) (u : User),
       0 <= i < user_count st -> users st !! Z.to_nat i = Some u ->
       holds name pass u = false.
Proof.
  intros H. apply login_scan_of_login in H as (Hadmin & shown & _ & H);
    [|done].
  split; [done|].
  destruct (first_match _ _ _ _) as [j'|] eqn:Hj; [by destruct H|].
  apply first_match_none in Hj. intros i u Hi Hu.
  apply (Forall_lookup_1 _ _ (Z.to_nat i) u Hj).
  apply lookup_take_Some. split; [done|lia].
Qed.

Lemma login_denied_no_match_witness :
  strcmp_eq (lit "alice") (lit "guess") && strcmp_eq (lit "guess")
    ADMIN_PASSWORD = false
  /\ forall (i : Z) (u : User),
       0 <= i < user_count (store_after (lit "alice") (lit "secret")) ->
       users (store_after (lit "alice") (lit "secret")) !! Z.to_nat i
       = Some u ->
       holds (lit "alice") (lit "guess") u = false.
Proof.
  eapply (login_denied_no_match (lit "alice") (lit "guess")
            (store_after (lit "alice") (lit "secret"))).
  vm_compute. reflexivity.
Defined.

(** X3: [login] leaves through the admin exit only for the name "admin"
    with the password "admin123". *)
Theorem login_admin_only (name pass : list ascii) (st st' : store) :
  login name pass st = Ret AdminGranted st' ->
  c_str name = lit "admin" /\ c_str pass = lit "admin123".
Proof.
  intros H. apply login_inv in H as (shown & _ & H).
  destruct (strcmp_eq name (lit "admin")) eqn:Hn; simpl in H.
  - destruct (strcmp_eq pass ADMIN_PASSWORD) eqn:Hp.
    + unfold strcmp_eq in Hn, Hp. apply bool_decide_eq_true in Hn, Hp.
      done.
    + apply login_scan_inv in H; [|done].
      destruct (first_match _ _ _ _); by destruct H.
  - apply login_scan_inv in H; [|done].
    destruct (first_match _ _ _ _); by destruct H.
Qed.

Lemma login_admin_only_witness :
  c_str (lit "admin") = lit "admin" /\ c_str ADMIN_PASSWORD = lit "admin123".
Proof.
  eapply (login_admin_only (lit "admin") ADMIN_PASSWORD initial_store).
  vm_compute. reflexivity.
Defined.

(** X4: a [login] that returns has not written to the store: the array and
    the counter are as before, and text has only been added to the
    output. *)
Theorem login_reads_only (name pass : list ascii) (st st' : store)
    (r : login_exit) :
  login name pass st = Ret r st' ->
  users st' = users st /\ user_count st' = user_count st
  /\ exists t : list ascii, stdout st' = stdout st ++ t.
Proof.
  intros H. apply login_inv in H as (shown & _ & H).
  destruct (strcmp_eq name (lit "admin") && strcmp_eq pass ADMIN_PASSWORD).
  - destruct H as [_ ->]. split; [done|]. split; [done|]. by eexists.
  - apply login_scan_inv in H; [|done].
    destruct (first_match _ _ _ _); destruct H as [_ ->];
      (split; [done|]); (split; [done|]); simpl;
      rewrite <- app_assoc; by eexists.
Qed.

Lemma login_reads_only_witness :
  users (store_after (lit "alice") (lit "secret"))
  = users (store_after (lit "alice") (lit "secret"))
  /\ user_count (store_after (lit "alice") (lit "secret"))
     = user_count (store_after (lit "alice") (lit "secret"))
  /\ exists t : list ascii,
       stdout (emit (lit "Attempting login: bob" ++ [LF]
                       ++ line "Login failed!")
                 (store_after (lit "alice") (lit "secret")))
       = stdout (store_after (lit "alice") (lit "secret")) ++ t.
Proof.
  apply (login_reads_only (lit "bob") (lit "pw")
           (store_after (lit "alice") (lit "secret"))
           (emit (lit "Attempting login: bob" ++ [LF]
                    ++ line "Login failed!")
              (store_after (lit "alice") (lit "secret")))
           Denied).
  vm_compute. reflexivity.
Defined.

(** ** Login and registration together *)

Lemma format_plain (s : list ascii) :
  percent_free s -> format s [] = Ok (c_str s).
Proof.
  unfold percent_free. induction s as [|c s IH]; intros Hs; [done|].
  cbn [format c_str] in *.
  destruct (Ascii.eqb_spec c NUL) as [->|Hc]; [done|].
  rewrite not_elem_of_cons in Hs. destruct Hs as [Hp Hs].
  destruct (Ascii.eqb_spec c "%") as [->|_]; [done|].
  by rewrite IH.
Qed.

Lemma strcpy_ok_bound (dst src out : list ascii) :
  strcpy dst src = Ok out -> (strlen src < length dst)%nat.
Proof.
  unfold strcpy, strlen.
  destruct (Nat.leb_spec (S (length (c_str src))) (length dst)); [|done].
  lia.
Qed.

Lemma first_match_app (name pass : list ascii) (l1 l2 : list User) :
  forall i : Z,
    first_match name pass (l1 ++ l2) i
    = match first_match name pass l1 i with
      | Some j => Some j
      | None => first_match name pass l2 (i + Z.of_nat (length l1))
      end.
Proof.
  induction l1 as [|u l1 IH]; intros i; simpl.
  - by rewrite Z.add_0_r.
  - destruct (holds name pass u); [done|]. rewrite IH.
    destruct (first_match name pass l1 (i + 1)); [done|]. f_equal. lia.
Qed.

Lemma first_match_bound (name pass : list ascii) (us : list User) :
  forall i j : Z,
    first_match name pass us i = Some j ->
    i <= j < i + Z.of_nat (length us).
Proof.
  induction us as [|u us IH]; intros i j H; [done|].
  simpl in H. destruct (holds name pass u).
  - injection H as <-. simpl. lia.
  - apply IH in H. simpl. lia.
Qed.

Lemma take_registered (us : list User) (k : nat) (u : User) :
  (k < length us)%nat -> take (S k) (<[k := u]> us) = take k us ++ [u].
Proof.
  intros Hk. rewrite (take_S_r _ _ u) by (by apply list_lookup_insert_eq).
  by rewrite take_insert_ge by lia.
Qed.

(** X5: on a store that satisfies the invariant, for two strings of at most
    62 characters together, a name without a percent sign and arguments
    other than the built-in pair, [login] returns: it prints the name as it
    is and gives the index of the first of the [user_count] records that
    holds both strings, or leaves through "Login failed!" when there is
    none. *)
Theorem login_plain_name (name pass : list ascii) (st : store) :
  store_ok st ->
  (strlen name + strlen pass <= 62)%nat ->
  percent_free name ->
  strcmp_eq name (lit "admin") && strcmp_eq pass ADMIN_PASSWORD = false ->
  login name pass st
  = match first_match name pass
            (take (Z.to_nat (user_count st)) (users st)) 0 with
    | Some j =>
        Ret (UserGranted j)
          (emit (lit "Attempting login: " ++ c_str name ++ [LF]
                   ++ lit "Login successful for user: " ++ c_str name
                   ++ [LF]) st)
    | None =>
        Ret Denied
          (emit (lit "Attempting login: " ++ c_str name ++ [LF]
                   ++ line "Login failed!") st)
    end.
Proof.
  intros Hok Hfit Hplain Hadmin.
  apply login_in_bounds; [done|done|by apply format_plain|done].
Qed.

Lemma login_plain_name_witness :
  login (lit "bob") (lit "pw") initial_store
  = Ret Denied
      (emit (lit "Attempting login: " ++ c_str (lit "bob") ++ [LF]
               ++ line "Login failed!") initial_store).
Proof.
  apply (login_plain_name (lit "bob") (lit "pw") initial_store).
  - apply initial_store_ok.
  - vm_compute. lia.
  - unfold percent_free. vm_compute. intros H.
    repeat (apply elem_of_cons in H as [H|H]; [discriminate H|]).
    by apply elem_of_nil in H.
  - vm_compute. reflexivity.
Defined.

Lemma registered_fits (name pass : list ascii) (st st' : store) (k : Z) :
  sized st -> register_user name pass st = Ret (Registered k) st' ->
  fits (name, pass).
Proof.
  intros [_ Hsize] H.
  destruct (register_user_done _ _ _ _ _ H)
    as (_ & _ & old & Hold & Hf & Hg & _).
  destruct (Forall_lookup_1 _ _ _ _ Hsize Hold) as [Hu Hp].
  apply strcpy_ok_bound in Hf, Hg. split; simpl; lia.
Qed.

(** X6: on a store that satisfies the invariant, a registration that
    succeeds at index [k] is followed by a successful [login] with the same
    pair (the name without a percent sign, the pair not the built-in one).
    The index granted is the first that holds the pair: it is [k] itself
    when no record before [k] held it, and below [k] otherwise. *)
Theorem register_then_login (name pass : list ascii) (st st' : store)
    (k : Z) :
  store_ok st ->
  register_user name pass st = Ret (Registered k) st' ->
  percent_free name ->
  strcmp_eq name (lit "admin") && strcmp_eq pass ADMIN_PASSWORD = false ->
  exists j : Z,
    login name pass st'
    = Ret (UserGranted j)
        (emit (lit "Attempting login: " ++ c_str name ++ [LF]
                 ++ lit "Login successful for user: " ++ c_str name
                 ++ [LF]) st')
    /\ 0 <= j <= k
    /\ (first_match name pass (take (Z.to_nat k) (users st)) 0 = None ->
        j = k).
Proof.
  intros Hok Hreg Hplain Hadmin.
  pose proof (register_user_ok _ _ _ _ _ Hok Hreg) as Hok'.
  destruct (registered_fits _ _ _ _ _ (proj1 Hok) Hreg) as [Hn Hp].
  simpl in Hn, Hp.
  rewrite (login_in_bounds name pass (c_str name) st' Hok');
    [|lia|by apply format_plain|done].
  destruct (register_user_done _ _ _ _ _ Hreg)
    as (-> & Hrange & old & Hold & _ & _ & ->).
  cbn [users user_count].
  assert (Hlt : (Z.to_nat (user_count st) < length (users st))%nat)
    by (by eapply lookup_lt_Some).
  replace (Z.to_nat (user_count st + 1)) with (S (Z.to_nat (user_count st)))
    by lia.
  rewrite take_registered, first_match_app by done.
  rewrite length_take_le by lia. cbn [first_match].
  rewrite holds_registered.
  destruct (first_match name pass (take _ (users st)) 0) as [j|] eqn:Hj.
  - exists j. split; [done|]. apply first_match_bound in Hj.
    rewrite length_take_le in Hj by lia. split; [lia|done].
  - exists (user_count st). split; [f_equal; f_equal; lia|].
    split; [lia|done].
Qed.

Lemma register_then_login_witness :
  exists j : Z,
    login (lit "alice") (lit "secret")
      (store_after (lit "alice") (lit "secret"))
    = Ret (UserGranted j)
        (emit (lit "Attempting login: " ++ c_str (lit "alice") ++ [LF]
                 ++ lit "Login successful for user: " ++ c_str (lit "alice")
                 ++ [LF]) (store_after (lit "alice") (lit "secret")))
    /\ 0 <= j <= 0
    /\ (first_match (lit "alice") (lit "secret")
          (take (Z.to_nat 0) (users initial_store)) 0 = None ->
        j = 0).
Proof.
  apply (register_then_login (lit "alice") (lit "secret") initial_store
           (store_after (lit "alice") (lit "secret")) 0).
  - apply initial_store_ok.
  - vm_compute. reflexivity.
  - unfold percent_free. vm_compute. intros H.
    repeat (apply elem_of_cons in H as [H|H]; [discriminate H|]).
    by apply elem_of_nil in H.
  - vm_compute. reflexivity.
Defined.

Lemma register_user_no_admin (name pass : list ascii) (st st' : store)
    (r : register_exit) :
  no_admin st -> register_user name pass st = Ret r st' -> no_admin st'.
Proof.
  unfold no_admin. intros Hno H. destruct r as [|k].
  { destruct (Z.le_gt_cases MAX_USERS (user_count st)) as [Hfull|Hroom].
    - rewrite register_user_full in H by done. by injection H as <-.
    - rewrite register_user_run in H by lia. by repeat case_match. }
  destruct (register_user_done _ _ _ _ _ H) as (_ & _ & old & _ & _ & _ & ->).
  cbn [users]. by apply Forall_insert.
Qed.

Lemma register_all_keeps (inputs : list (list ascii * list ascii)) :
  forall (st st' : store) (rs : list register_exit),
    store_ok st -> no_admin st ->
    register_all inputs st = Ret rs st' ->
    store_ok st' /\ no_admin st' /\ length rs = length inputs.
Proof.
  induction inputs as [|[name pass] rest IH]; intros st st' rs Hok Hno H.
  - by injection H as <- <-.
  - cbn [register_all] in H.
    apply bind_inv in H as (r & s1 & Hr & H).
    apply bind_inv in H as (rs' & s2 & Hrs & H). injection H as <- <-.
    destruct (IH s1 s2 rs') as (Hok2 & Hno2 & Hlen); [..|done|].
    + by eapply register_user_ok.
    + by eapply register_user_no_admin.
    + split; [done|]. split; [done|]. simpl. by rewrite Hlen.
Qed.

(** X7: whatever pairs are registered from the initial store, and however
    each call ends, a run that returns leaves a store that satisfies the
    invariant (array and fields of their declared sizes, every field a
    terminated string, the counter between 0 and 100) and in which no
    record is marked as an administrator. *)
Theorem registrations_keep_invariant
    (inputs : list (list ascii * list ascii)) (rs : list register_exit)
    (st : store) :
  register_all inputs initial_store = Ret rs st ->
  store_ok st /\ no_admin st /\ length rs = length inputs.
Proof.
  apply register_all_keeps; [apply initial_store_ok|].
  apply Forall_forall. intros u Hu.
  apply list_elem_of_In, repeat_spec in Hu as ->. done.
Qed.

Lemma registrations_keep_invariant_witness :
  store_ok (store_after (lit "alice") (lit "secret"))
  /\ no_admin (store_after (lit "alice") (lit "secret"))
  /\ length [Registered 0] = length [(lit "alice", lit "secret")].
Proof.
  apply (registrations_keep_invariant [(lit "alice", lit "secret")]
           [Registered 0] (store_after (lit "alice") (lit "secret"))).
  vm_compute. reflexivity.
Defined.





(** ** More results about the heap *)

Lemma request_any (size : Z) :
  (size_t_of_int size * sizeof_char) mod 2 ^ SIZE_BITS = size_t_of_int size
  /\ 0 <= size_t_of_int size < 2 ^ SIZE_BITS.
Proof.
  unfold size_t_of_int, sizeof_char.
  rewrite Z.mul_1_r, Z.mod_mod by done. split; [done|].
  apply Z.mod_pos_bound. done.
Qed.

Lemma hprintf_inv (fmt : list ascii) (args : list arg) (h h' : heap)
    (x : unit) :
  hprintf fmt args h = Ret x h' ->
  exists t : list ascii, format fmt args = Ok t /\ h' = say t h.
Proof.
  unfold hprintf. intros H.
  apply bind_inv in H as (t & s & Ht & H). apply lift_inv in Ht as [Ht ->].
  exists t. split; [done|]. by injection H as <-.
Qed.

Lemma malloc_inv (n : Z) (h h' : heap) (p : pointer) :
  0 <= n -> malloc n h = Ret p h' ->
  (p = None /\ h' = h)
  \/ (p = Some (length (blocks h)) /\ n <= available h
      /\ h' = grown h (repeat (fresh h) (Z.to_nat n))).
Proof.
  intros H0. unfold malloc.
  destruct ((n =? 0) && zero_size_null h).
  { intros [= <- <-]. by left. }
  destruct (Z.leb_spec n (available h)).
  - intros [= <- <-]. right. split; [done|]. split; [done|].
    unfold grown. rewrite repeat_length. by rewrite Z2Nat.id by lia.
  - intros [= <- <-]. by left.
Qed.

(** X9: whatever the size, an [allocate_session] that returns has released
    nothing and has left every block that was there as it was.  It has
    either only printed "Allocation failed", or added one live block of
    zeros, as many as the size converted to [size_t], to which the caller
    gets no pointer. *)
Theorem allocate_session_only_adds (size : Z) (h h' : heap)
    (r : allocate_exit) :
  allocate_session size h = Ret r h' ->
  (r = AllocationFailed /\ h' = say (line "Allocation failed") h)
  \/ (r = SessionAllocated (length (blocks h))
      /\ blocks h'
         = blocks h
           ++ [mkBlock (repeat NUL (Z.to_nat (size_t_of_int size))) true]
      /\ available h' = available h - size_t_of_int size).
Proof.
  unfold allocate_session. intros H.
  destruct (request_any size) as [Hreq Hrange]. rewrite Hreq in H.
  apply bind_inv in H as (p & h1 & Hm & H).
  apply malloc_inv in Hm; [|apply Hrange].
  destruct Hm as [[-> ->]|(-> & Hroom & ->)].
  - left. apply bind_inv in H as ([] & h2 & Hp & H).
    apply hprintf_inv in Hp as (t & Ht & ->).
    closed_text Ht t (line "Allocation failed"). by injection H as <- <-.
  - right.
    assert (Hset := memset_grown h
                      (repeat (fresh h) (Z.to_nat (size_t_of_int size)))
                      NUL (size_t_of_int size)).
    rewrite repeat_length in Hset.
    rewrite (bind_ret _ _ _ _ _ (Hset ltac:(lia))) in H. clear Hset.
    apply bind_inv in H as ([] & h2 & Hp & H).
    apply hprintf_inv in Hp as (t & _ & ->). injection H as <- <-.
    split; [done|]. cbn [blocks say grown available].
    rewrite drop_ge by (rewrite repeat_length; lia).
    rewrite app_nil_r, repeat_length, Z2Nat.id by lia. done.
Qed.

Lemma allocate_session_only_adds_witness :
  (SessionAllocated 0 = AllocationFailed
   /\ mkHeap [mkBlock (repeat NUL 3) true] 61 false "#"%char
        (lit "Session allocated: 3 bytes" ++ [LF])
      = say (line "Allocation failed") (mkHeap [] 64 false "#"%char []))
  \/ (SessionAllocated 0
      = SessionAllocated (length (blocks (mkHeap [] 64 false "#"%char [])))
      /\ blocks (mkHeap [mkBlock (repeat NUL 3) true] 61 false "#"%char
                   (lit "Session allocated: 3 bytes" ++ [LF]))
         = blocks (mkHeap [] 64 false "#"%char [])
           ++ [mkBlock (repeat NUL (Z.to_nat (size_t_of_int 3))) true]
      /\ available (mkHeap [mkBlock (repeat NUL 3) true] 61 false "#"%char
                      (lit "Session allocated: 3 bytes" ++ [LF]))
         = available (mkHeap [] 64 false "#"%char []) - size_t_of_int 3).
Proof.
  apply (allocate_session_only_adds 3 (mkHeap [] 64 false "#"%char [])).
  vm_compute. reflexivity.
Defined.

(** X10: for a size between 1 and the largest [int], the allocator's room
    alone decides: with room, the session is a fresh live block of exactly
    that many zero bytes and the size is reported; without, "Allocation
    failed" is printed and the heap is as before. *)
Theorem allocate_session_by_room (size : Z) (h : heap) :
  0 < size < 2 ^ 31 ->
  allocate_session size h
  = if size <=? available h
    then Ret (SessionAllocated (length (blocks h)))
           (say (lit "Session allocated: " ++ decimal size ++ line " bytes")
              (grown h (repeat NUL (Z.to_nat size))))
    else Ret AllocationFailed (say (line "Allocation failed") h).
Proof.
  intros Hint. destruct (Z.leb_spec size (available h)) as [Hroom|Hroom].
  - by apply allocate_session_positive.
  - unfold allocate_session.
    destruct (request_small size) as [-> _]; [unfold SIZE_BITS; lia|].
    erewrite bind_ret by (apply malloc_none; lia). cbv beta iota.
    erewrite bind_ret by (apply hprintf_ok; reflexivity). reflexivity.
Qed.

Lemma allocate_session_by_room_witness :
  allocate_session 65 (mkHeap [] 64 false "#"%char [])
  = Ret AllocationFailed
      (say (line "Allocation failed") (mkHeap [] 64 false "#"%char [])).
Proof.
  apply (allocate_session_by_room 65 (mkHeap [] 64 false "#"%char [])).
  vm_compute. split; reflexivity.
Defined.

(** X11: a negative size reaches [malloc] as a request of more than
    [2^63] bytes.  With an allocator that has less room than that, the
    call prints "Allocation failed" and leaves the heap as it was. *)
Theorem allocate_session_negative_fails (size : Z) (h : heap) :
  - 2 ^ 31 <= size < 0 -> available h < 2 ^ 63 ->
  2 ^ 63 < size_t_of_int size
  /\ allocate_session size h
     = Ret AllocationFailed (say (line "Allocation failed") h).
Proof.
  intros Hint Hroom. destruct (request_negative size Hint) as [Hreq Hconv].
  split; [rewrite Hconv; unfold SIZE_BITS; lia|].
  unfold allocate_session. rewrite Hreq.
  erewrite bind_ret by (apply malloc_none; unfold SIZE_BITS in *; lia).
  cbv beta iota.
  erewrite bind_ret by (apply hprintf_ok; reflexivity). reflexivity.
Qed.

Lemma allocate_session_negative_fails_witness :
  2 ^ 63 < size_t_of_int (-1)
  /\ allocate_session (-1) (mkHeap [] 64 false "#"%char [])
     = Ret AllocationFailed
         (say (line "Allocation failed") (mkHeap [] 64 false "#"%char [])).
Proof.
  apply (allocate_session_negative_fails (-1)
           (mkHeap [] 64 false "#"%char [])).
  - vm_compute. split; [discriminate|reflexivity].
  - vm_compute. reflexivity.
Defined.

(** X12: [process_token] does not test what [strdup] returns.  When there
    is no storage for the copy, whatever the length of the token, the
    first read goes through the null pointer. *)
Theorem process_token_no_storage (token : list ascii) (h : heap) :
  available h < Z.of_nat (S (strlen token)) ->
  process_token token h = Undefined NullDereference.
Proof.
  intros Hroom. unfold process_token.
  erewrite bind_ret by (by apply strdup_none). cbv beta.
  by apply bind_undefined.
Qed.

Lemma process_token_no_storage_witness :
  process_token (lit "abc") (mkHeap [] 3 false "#"%char [])
  = Undefined NullDereference.
Proof.
  apply (process_token_no_storage (lit "abc")
           (mkHeap [] 3 false "#"%char [])).
  vm_compute. reflexivity.
Defined.

(** ** More results about check_and_read_config *)

(** X13: [check_and_read_config] never fails, whatever the size of the
    file.  It gives 1 exactly when the file may be read both at the probe
    and, after what the other processes did in between, at the open; in
    every other case it gives 0.  It does not itself change a file. *)
Theorem check_and_read_config_two_looks (between : filesystem -> filesystem)
    (path : list ascii) (fs : filesystem) :
  check_and_read_config between path fs
  = if may_read path fs
    then Ret (if may_read path (between fs) then 1 else 0) (between fs)
    else Ret 0 fs.
Proof.
  rewrite check_and_read_config_run. unfold may_read.
  destruct (fs !! c_str path) as [f|]; [|done].
  destruct (readable f); [|done].
  by destruct (between fs !! c_str path) as [g|].
Qed.

(** ** Results about check_user_files *)

Lemma lit_no_nul_command : NUL ∉ lit "ls -la /home/".
Proof.
  vm_compute. intros H.
  repeat (apply elem_of_cons in H as [H|H]; [discriminate H|]).
  by apply elem_of_nil in H.
Qed.

(** X14: [check_user_files] hands the text "ls -la /home/" followed by the
    name, character by character as given, to the command processor when
    the name has at most 242 characters; a longer name is written past the
    256 bytes of [command]. *)
Theorem check_user_files_run (name : list ascii) (log : shell) :
  check_user_files name log
  = if (strlen name <=? 242)%nat
    then Ret tt (log ++ [lit "ls -la /home/" ++ c_str name])
    else Undefined (BufferOverflow 256 (strlen name + 14)).
Proof.
  unfold check_user_files, sprintf.
  replace (format (lit "ls -la /home/%s") [ArgStr name])
    with (Ok (lit "ls -la /home/" ++ c_str name ++ [])) by reflexivity.
  rewrite app_nil_r, length_app, automatic_length.
  change (length (lit "ls -la /home/")) with 13%nat. fold (strlen name).
  destruct (Nat.leb_spec (strlen name) 242) as [Hfit|Hlong].
  - destruct (Nat.leb_spec (S (13 + strlen name)) 256); [|lia].
    rewrite (bind_lift_ok _ _ _ _ eq_refl). cbv beta. unfold system.
    assert (Hread : read_string
              ((lit "ls -la /home/" ++ c_str name) ++ NUL
                 :: drop (S (13 + strlen name)) (automatic 256))
            = Ok (lit "ls -la /home/" ++ c_str name)).
    { unfold read_string. rewrite terminated_app_nul, c_str_app_nul; [done|].
      rewrite not_elem_of_app.
      split; [apply lit_no_nul_command|apply c_str_no_nul]. }
    by rewrite (bind_lift_ok _ _ _ _ Hread).
  - destruct (Nat.leb_spec (S (13 + strlen name)) 256); [lia|].
    rewrite (bind_lift_fault _ _ _ _ eq_refl).
    f_equal. f_equal. lia.
Qed.

(** ** The name as a format *)

Lemma format_conversion (a tail : list ascii) :
  NUL ∉ a -> "%"%char ∉ a -> head tail <> Some "%"%char ->
  format (a ++ "%"%char :: tail) [] = Fault BadFormat.
Proof.
  intros Hnul Hpc Htail. induction a as [|c a IH]; cbn [app format].
  - change (Ascii.eqb "%" NUL) with false.
    change (Ascii.eqb "%" "%") with true. cbv iota.
    destruct tail as [|d tail]; [done|].
    destruct (Ascii.eqb_spec d "%") as [->|_]; [done|].
    destruct (Ascii.eqb d "s"); [done|]. by destruct (Ascii.eqb d "d").
  - rewrite not_elem_of_cons in Hnul, Hpc.
    destruct Hnul as [Hc Hnul], Hpc as [Hp Hpc].
    destruct (Ascii.eqb_spec c NUL) as [->|_]; [done|].
    destruct (Ascii.eqb_spec c "%") as [->|_]; [done|].
    by rewrite IH.
Qed.

(** X15: [login] passes the name to [printf] as the format.  A name whose
    first percent sign is not followed by a second one asks for an
    argument that is not there: for arguments that fit the buffer, the run
    ends at that [printf], after "Attempting login: " and before the
    store is looked at. *)
Theorem login_name_as_format (a tail pass : list ascii) (st : store) :
  NUL ∉ a -> "%"%char ∉ a -> head tail <> Some "%"%char ->
  (strlen (a ++ "%"%char :: tail) + strlen pass <= 62)%nat ->
  login (a ++ "%"%char :: tail) pass st = Undefined BadFormat.
Proof.
  intros Hnul Hpc Htail Hfit. unfold login.
  edestruct (@login_buffer_fits login_exit (a ++ "%"%char :: tail) pass)
    as [buffer Hbuf]; [exact Hfit|].
  rewrite Hbuf. clear Hbuf. cbv beta.
  step_printf.
  apply bind_undefined, printf_fault. by apply format_conversion.
Qed.

Lemma login_name_as_format_witness :
  login (lit "guest" ++ "%"%char :: lit "n") (lit "x") initial_store
  = Undefined BadFormat.
Proof.
  apply (login_name_as_format (lit "guest") (lit "n") (lit "x")
           initial_store).
  - vm_compute. intros H.
    repeat (apply elem_of_cons in H as [H|H]; [discriminate H|]).
    by apply elem_of_nil in H.
  - vm_compute. intros H.
    repeat (apply elem_of_cons in H as [H|H]; [discriminate H|]).
    by apply elem_of_nil in H.
  - vm_compute. discriminate.
  - vm_compute. lia.
Defined.
